(** * qq-group-bot: the message transcoder of [src/message.ts]

    A shallow embedding of [Message.parse] (template string to element
    sequence) and [Message.format] (element sequence to the two wire
    payloads), followed by the properties of the specification checked
    against them.

    JavaScript strings are sequences of UTF-16 code units; the regular
    expression of [parse] has no [u] flag and therefore works on code
    units, so a string is modelled as a list of code units. *)

From Stdlib Require Import String Ascii DecimalString.
From Stdlib Require Import ZArith NArith Bool Lia List.
From Equations Require Import Equations.
Import ListNotations.

Local Open Scope Z_scope.

(* ===================================================================== *)
(** * JavaScript strings and arrays *)
(* ===================================================================== *)

Module JS.

Definition char := N.
Definition jsstring := list char.

(** An ASCII literal of the source as a list of code units. *)
Definition lit (s : string) : jsstring :=
  List.map N_of_ascii (list_ascii_of_string s).

Definition char_eqb (a b : char) : bool := N.eqb a b.

Fixpoint str_eqb (a b : jsstring) : bool :=
  match a, b with
  | [], [] => true
  | x :: a', y :: b' => char_eqb x y && str_eqb a' b'
  | _, _ => false
  end.

(** [s.startsWith(p)] *)
Fixpoint startsWith (p s : jsstring) : bool :=
  match p, s with
  | [], _ => true
  | x :: p', y :: s' => char_eqb x y && startsWith p' s'
  | _ :: _, [] => false
  end.

(** Relative indices of [slice]: a negative index counts from the end, and
    both ends are clamped into [0, len]. *)
Definition clamp_index (len i : Z) : Z :=
  if i <? 0 then Z.max (len + i) 0 else Z.min i len.

(** [a.slice(start, end)] of strings and of arrays; [None] is an omitted
    [end]. *)
Definition slice {A} (a : list A) (start : Z) (end_ : option Z) : list A :=
  let len := Z.of_nat (length a) in
  let from := clamp_index len start in
  let to := match end_ with
            | None => len
            | Some e => clamp_index len e
            end in
  firstn (Z.to_nat (to - from)) (skipn (Z.to_nat from) a).

(** [s.indexOf(p)], counting from [i]: the first position at which [p]
    occurs, [-1] when it does not. *)
Fixpoint indexOf_from (s p : jsstring) (i : Z) : Z :=
  if startsWith p s then i
  else match s with
       | [] => -1
       | _ :: s' => indexOf_from s' p (i + 1)
       end.

Definition indexOf (s p : jsstring) : Z := indexOf_from s p 0.

(** [s.split(sep)] for a one-character separator, the only kind the source
    uses (comma, equals sign, colon, slash).  The result is never empty. *)
Fixpoint split (sep : char) (s : jsstring) : list jsstring :=
  match s with
  | [] => [[]]
  | c :: s' =>
      if char_eqb c sep then [] :: split sep s'
      else match split sep s' with
           | w :: ws => (c :: w) :: ws
           | [] => [[c]]
           end
  end.

(** [a.join(sep)] *)
Fixpoint join (sep : jsstring) (a : list jsstring) : jsstring :=
  match a with
  | [] => []
  | [x] => x
  | x :: a' => x ++ sep ++ join sep a'
  end.

(** [s.replace(p, r)] with a string pattern: only the first occurrence of
    [p] is replaced ([r] holds no [$] pattern in the source). *)
Fixpoint replace (p r s : jsstring) : jsstring :=
  if startsWith p s then r ++ skipn (length p) s
  else match s with
       | [] => []
       | c :: s' => c :: replace p r s'
       end.

(** [a.indexOf(x)] of an array of strings, counting from [i]. *)
Fixpoint array_indexOf_from (a : list jsstring) (x : jsstring) (i : Z) : Z :=
  match a with
  | [] => -1
  | y :: a' => if str_eqb y x then i else array_indexOf_from a' x (i + 1)
  end.

Definition array_indexOf (a : list jsstring) (x : jsstring) : Z :=
  array_indexOf_from a x 0.

(** Decimal rendering of an integer-valued number. *)
Definition of_Z (z : Z) : jsstring :=
  lit (NilZero.string_of_int (Z.to_int z)).

End JS.
Import JS.

(* ===================================================================== *)
(** * JavaScript values, objects and completions *)
(* ===================================================================== *)

(** The JSON-shaped values that reach this module.  [VNum] holds the
    integer-valued numbers; an object is the list of its own properties in
    enumeration order. *)
#[warnings="-register-all"]
Inductive Value :=
| VUndef
| VNull
| VBool (b : bool)
| VNum (n : Z)
| VStr (s : jsstring)
| VObj (fields : list (jsstring * Value)).

Definition Obj := list (jsstring * Value).

(** ToBoolean *)
Definition truthy (v : Value) : bool :=
  match v with
  | VUndef | VNull => false
  | VBool b => b
  | VNum n => negb (n =? 0)
  | VStr s => match s with [] => false | _ => true end
  | VObj _ => true
  end.

(** ToString, as applied by a template literal [`${v}`]. *)
Definition ToString (v : Value) : jsstring :=
  match v with
  | VUndef => lit "undefined"
  | VNull => lit "null"
  | VBool true => lit "true"
  | VBool false => lit "false"
  | VNum n => of_Z n
  | VStr s => s
  | VObj _ => lit "[object Object]"
  end.

(** [a || b] *)
Definition or_else (a b : Value) : Value := if truthy a then a else b.

(** [o[k]]: the value of property [k], [undefined] when [o] has none. *)
Fixpoint get (o : Obj) (k : jsstring) : Value :=
  match o with
  | [] => VUndef
  | (k', v) :: o' => if str_eqb k' k then v else get o' k
  end.


(** [o[k] = v]: an existing property keeps its place, a new one goes last.
    (JavaScript enumerates integer-like keys first; nothing in this module
    observes the enumeration order of an object built here.) *)
Fixpoint set (o : Obj) (k : jsstring) (v : Value) : Obj :=
  match o with
  | [] => [(k, v)]
  | (k', v') :: o' =>
      if str_eqb k' k then (k', v) :: o' else (k', v') :: set o' k v
  end.

(** The rest of an object pattern [{k, ...rest}]. *)
Definition without (o : Obj) (k : jsstring) : Obj :=
  filter (fun kv => negb (str_eqb (fst kv) k)) o.

(** [{...target, ...src}] *)
Definition spread (target src : Obj) : Obj :=
  fold_left (fun o kv => set o (fst kv) (snd kv)) src target.

(** [Object.fromEntries(es)] *)
Definition fromEntries (es : list (jsstring * Value)) : Obj := spread [] es.

(** [Object.entries(o).map(([key, value]) => `${key}=${value}`)] *)
Definition entry_tokens (o : Obj) : list jsstring :=
  map (fun kv => fst kv ++ lit "=" ++ ToString (snd kv)) o.

Inductive Error :=
| TypeError (message : string).

(** How an evaluation completes: normally with a value, or abruptly with a
    thrown error. *)
Inductive Completion (A : Type) :=
| Normal (a : A)
| Throw (e : Error).
Arguments Normal {A} a.
Arguments Throw {A} e.

Definition bind {A B} (c : Completion A) (k : A -> Completion B) : Completion B :=
  match c with
  | Normal a => k a
  | Throw e => Throw e
  end.

Declare Scope completion_scope.
Delimit Scope completion_scope with completion.
Notation "x <- c ;; k" := (bind c (fun x => k))
  (at level 61, c at next level, right associativity) : completion_scope.
Notation "' pat <- c ;; k" := (bind c (fun x => match x with pat => k end))
  (at level 61, pat pattern, c at next level, right associativity) : completion_scope.

(** [a.map(f)] with a callback that may throw: left to right, the first
    throw ends the call. *)
Fixpoint array_map {A B} (f : A -> Completion B) (a : list A) : Completion (list B) :=
  match a with
  | [] => Normal []
  | x :: a' =>
      (y <- f x ;;
       ys <- array_map f a' ;;
       Normal (y :: ys))%completion
  end.

(* ===================================================================== *)
(** * The tokenizer's regular expression *)
(* ===================================================================== *)

Module Chars.
Definition dquote : char := 34%N.        (* straight double quote *)
Definition squote : char := 39%N.        (* straight single quote *)
Definition backtick : char := 96%N.
Definition ldquote : char := 8220%N.     (* U+201C *)
Definition rdquote : char := 8221%N.     (* U+201D *)
Definition lsquote : char := 8216%N.     (* U+2018 *)
Definition rsquote : char := 8217%N.     (* U+2019 *)
Definition lt : char := 60%N.            (* < *)
Definition gt : char := 62%N.            (* > *)
Definition comma : char := 44%N.
Definition equals : char := 61%N.
Definition colon : char := 58%N.
Definition slash : char := 47%N.
End Chars.

(** The closing character of each of the five quoted alternatives of
    [regex]: straight double and single quotes and the backtick close
    themselves, a curly opening quote is closed by its curly closing
    quote.  The sixth alternative is the tag [<[^>]+?>]. *)
Definition closing_quote (c : char) : option char :=
  if char_eqb c Chars.dquote then Some Chars.dquote
  else if char_eqb c Chars.squote then Some Chars.squote
  else if char_eqb c Chars.backtick then Some Chars.backtick
  else if char_eqb c Chars.ldquote then Some Chars.rdquote
  else if char_eqb c Chars.lsquote then Some Chars.rsquote
  else None.

(** [[^d]*?d] anchored at the head of [s]: the code units up to and
    including the first [d]; no match when [d] does not occur. *)
Fixpoint upto (d : char) (s : jsstring) : option jsstring :=
  match s with
  | [] => None
  | c :: s' =>
      if char_eqb c d then Some [c]
      else match upto d s' with
           | Some m => Some (c :: m)
           | None => None
           end
  end.

(** The regular expression anchored at the head of [s].  The alternatives
    start with six different characters, so at most one applies; each is
    its opening character, a lazy run that excludes the closing character,
    and the closing character.  [<[^>]+?>] needs at least one code unit
    between the brackets. *)
Definition regex_at (s : jsstring) : option jsstring :=
  match s with
  | [] => None
  | c :: rest =>
      match closing_quote c with
      | Some d =>
          match upto d rest with
          | Some m => Some (c :: m)
          | None => None
          end
      | None =>
          if char_eqb c Chars.lt then
            match rest with
            | x :: rest' =>
                if char_eqb x Chars.gt then None
                else match upto Chars.gt rest' with
                     | Some m => Some (c :: x :: m)
                     | None => None
                     end
            | [] => None
            end
          else None
      end
  end.

(** [template.match(regex)]: the leftmost match, [None] for [null]. *)
Fixpoint regex_match (s : jsstring) : option jsstring :=
  match regex_at s with
  | Some m => Some m
  | None =>
      match s with
      | [] => None
      | _ :: s' => regex_match s'
      end
  end.

Definition is_lower (c : char) : bool := (97 <=? c)%N && (c <=? 122)%N.
Definition is_digit (c : char) : bool := (48 <=? c)%N && (c <=? 57)%N.

Fixpoint span (p : char -> bool) (s : jsstring) : jsstring * jsstring :=
  match s with
  | [] => ([], [])
  | c :: s' =>
      if p c then let (a, b) := span p s' in (c :: a, b) else ([], s)
  end.

(** [/^[a-z]+:[0-9]+$/.test(s)] *)
Definition shorthand_test (s : jsstring) : bool :=
  match span is_lower s with
  | (_ :: _, c :: digits) =>
      char_eqb c Chars.colon
      && match digits with [] => false | _ => forallb is_digit digits end
  | _ => false
  end.

(* ===================================================================== *)
(** * Helpers that live outside [src/message.ts] *)
(* ===================================================================== *)

Module Utils.

(** Modelled from the spec: [trimQuote] of [@/utils], which [message.ts]
    imports.  One layer of surrounding quote characters is stripped if
    present, for the quote styles of the tokenizer. *)
Definition trimQuote (s : jsstring) : jsstring :=
  match s with
  | c :: ((_ :: _) as rest) =>
      match closing_quote c with
      | Some d => if char_eqb (last rest d) d
                  then slice s 1 (Some (-1))
                  else s
      | None => s
      end
  | _ => s
  end.

(** [String.prototype.toLowerCase] restricted to the ASCII letters; other
    code units are kept.  It only serves to run [parse] on ASCII inputs:
    the general statements below hold for any lower-casing function. *)
Definition toLowerCase_ascii (s : jsstring) : jsstring :=
  map (fun c => if (65 <=? c)%N && (c <=? 90)%N then (c + 32)%N else c) s.

End Utils.

(* ===================================================================== *)
(** * Message.parse *)
(* ===================================================================== *)

(** The inbound payload: [content], and the optional [attachments] and
    [mentions] arrays ([None] when the property is absent). *)
Record Payload := {
  content : option jsstring;
  attachments : option (list Obj);
  mentions : option (list Obj);
}.

(** An item of the [attrs] array of a tag: a raw token of the tag, or for
    [@everyone] the array [['all', true]] that the source stores there. *)
Inductive Attr :=
| AStr (s : jsstring)
| AArr (items : list Value).

(** The loop variables of the scan. *)
Record Scan := {
  template : jsstring;
  result : list Obj;
  brief : jsstring;
}.

Definition text_elem (text : jsstring) : Obj :=
  [(lit "type", VStr (lit "text")); (lit "text", VStr text)].

(** The element pushed for a quoted run (lines 174-179). *)
Definition quoted_elem (match_ : jsstring) : Obj :=
  [(lit "type", VStr (lit "text"));
   (lit "data", VObj [(lit "text", VStr match_)])].

(** [payload.mentions.find((u) => u.id === id)]; reading [find] of an
    absent [mentions] throws. *)
Definition find_mention (mentions : option (list Obj)) (id : jsstring)
  : Completion (option Obj) :=
  match mentions with
  | None =>
      Throw (TypeError "Cannot read properties of undefined (reading 'find')")
  | Some us =>
      Normal (find (fun u => match get u (lit "id") with
                             | VStr s => str_eqb s id
                             | _ => false
                             end) us)
  end.

(** Lines 148-164: the tag's [type] and [attrs] after normalization. *)
Definition normalize (mentions : option (list Obj))
    (type : jsstring) (attrs : list jsstring)
  : Completion (jsstring * list Attr) :=
  if startsWith (lit "faceType") type then
    Normal (lit "face",
            map (fun attr => AStr (replace (lit "faceId") (lit "id") attr)) attrs)
  else if startsWith (lit "@") type then
    if startsWith (lit "@!") type then
      let id := slice type 2 None in
      (found <- find_mention mentions id ;;
       let record := match found with Some u => u | None => [] end in
       Normal (lit "at", map AStr (entry_tokens record)))%completion
    else if str_eqb type (lit "@everyone") then
      Normal (lit "at", [AArr [VStr (lit "all"); VBool true]])
    else Normal (type, map AStr attrs)
  else if shorthand_test type then
    Normal (lit "face",
            [AStr (lit "id=" ++ nth 1 (split Chars.colon type) (lit "undefined"))])
  else Normal (type, map AStr attrs).

(** An array item inside [attrs.join(',')]. *)
Definition Attr_toString (a : Attr) : jsstring :=
  match a with
  | AStr s => s
  | AArr items =>
      join (lit ",") (map (fun v => match v with
                                    | VUndef | VNull => []
                                    | _ => ToString v
                                    end) items)
  end.

Section Parse.

(** [String.prototype.toLowerCase] and [trimQuote] are taken as given. *)
Variable toLowerCase : jsstring -> jsstring.
Variable trimQuote : jsstring -> jsstring.

(** The callback of line 167: [attr.split] exists on strings only. *)
Definition attr_entry (attr : Attr) : Completion (jsstring * Value) :=
  match attr with
  | AStr s =>
      match split Chars.equals s with
      | key :: values =>
          Normal (toLowerCase key, VStr (trimQuote (join (lit "=") values)))
      | [] => Throw (TypeError "Cannot read properties of undefined (reading 'toLowerCase')")
      end
  | AArr _ => Throw (TypeError "attr.split is not a function")
  end.

(** Lines 165-171: [{type, ...Object.fromEntries(attrs.map(...))}]. *)
Definition tag_elem (type : jsstring) (attrs : list Attr) : Completion Obj :=
  (entries <- array_map attr_entry attrs ;;
   Normal (spread [(lit "type", VStr type)] (fromEntries entries)))%completion.

(** Lines 147-172: a match that starts with [<]. *)
Definition parse_tag (payload : Payload) (match_ : jsstring)
  : Completion (Obj * jsstring) :=
  match split Chars.comma (slice match_ 1 (Some (-1))) with
  | type :: attrs =>
      ('(type, attrs) <- normalize (mentions payload) type attrs ;;
       elem <- tag_elem type attrs ;;
       Normal (elem,
               lit "<" ++ type ++ lit ":"
                 ++ join (lit ",") (map Attr_toString attrs) ++ lit ">"))%completion
  | [] => Throw (TypeError "Cannot read properties of undefined (reading 'startsWith')")
  end.

(** One iteration of the loop of lines 133-182; [None] is the [break]. *)
Definition scan_step (payload : Payload) (st : Scan) : Completion (option Scan) :=
  match regex_match (template st) with
  | None => Normal None
  | Some [] => Normal None
  | Some match_ =>
      let index := indexOf (template st) match_ in
      let prevText := slice (template st) 0 (Some index) in
      let '(result1, brief1) :=
        match prevText with
        | [] => (result st, brief st)
        | _ => (result st ++ [text_elem prevText], brief st ++ prevText)
        end in
      let template1 :=
        slice (template st) (index + Z.of_nat (length match_)) None in
      if startsWith (lit "<") match_ then
        ('(elem, marker) <- parse_tag payload match_ ;;
         Normal (Some {| template := template1;
                         result := result1 ++ [elem];
                         brief := brief1 ++ marker |}))%completion
      else
        Normal (Some {| template := template1;
                        result := result1 ++ [quoted_elem match_];
                        brief := brief1 ++ match_ |})
  end.

(** The [while (template.length)] loop.  [None] means that [fuel]
    iterations did not reach the end of the loop; it is not an outcome of
    the program. *)
Fixpoint scan (fuel : nat) (payload : Payload) (st : Scan)
  : option (Completion Scan) :=
  match fuel with
  | O => None
  | S fuel' =>
      match template st with
      | [] => Some (Normal st)
      | _ =>
          match scan_step payload st with
          | Throw e => Some (Throw e)
          | Normal None => Some (Normal st)
          | Normal (Some st') => scan fuel' payload st'
          end
      end
  end.

(** Lines 183-189. *)
Definition flush (st : Scan) : Scan :=
  match template st with
  | [] => st
  | rest => {| template := rest;
               result := result st ++ [text_elem rest];
               brief := brief st ++ rest |}
  end.

(** Lines 193-201, one attachment. *)
Definition attachment_elem (attachment : Obj) : Completion (Obj * jsstring) :=
  match get attachment (lit "content_type") with
  | VStr content_type =>
      let data := without attachment (lit "content_type") in
      let type := hd [] (split Chars.slash content_type) in
      let src := get data (lit "src") in
      let url := get data (lit "url") in
      Normal (set (set (spread [(lit "type", VStr type)] data)
                       (lit "src") (or_else src url))
                  (lit "url") (or_else url src),
              lit "<$" ++ type ++ lit ","
                ++ join (lit ",") (entry_tokens data) ++ lit ">")
  | VUndef | VNull =>
      Throw (TypeError "Cannot read properties of undefined (reading 'split')")
  | _ => Throw (TypeError "content_type.split is not a function")
  end.

(** Lines 191-203. *)
Fixpoint add_attachments (l : list Obj) (st : Scan) : Completion Scan :=
  match l with
  | [] => Normal st
  | attachment :: l' =>
      ('(elem, marker) <- attachment_elem attachment ;;
       add_attachments l' {| template := template st;
                             result := result st ++ [elem];
                             brief := brief st ++ marker |})%completion
  end.

(** What [parse] returns, and the payload as the two [delete]s leave it. *)
Record Parsed := {
  parsed_result : list Obj;
  parsed_brief : jsstring;
  payload_after : Payload;
}.

Definition parse_with (fuel : nat) (payload : Payload) : option (Completion Parsed) :=
  let template0 := match content payload with
                   | Some ((_ :: _) as s) => s
                   | _ => []
                   end in
  match scan fuel payload {| template := template0; result := []; brief := [] |} with
  | None => None
  | Some (Throw e) => Some (Throw e)
  | Some (Normal st) =>
      Some (st' <- match attachments payload with
                   | Some l => add_attachments l (flush st)
                   | None => Normal (flush st)
                   end ;;
            Normal {| parsed_result := result st';
                      parsed_brief := brief st';
                      payload_after := {| content := content payload;
                                          attachments := None;
                                          mentions := None |} |})%completion
  end.

(** [Message.parse]: the loop gets one iteration per code unit of the
    template and one more, which always suffices (each iteration that goes
    on removes at least two code units). *)
Definition parse (payload : Payload) : option (Completion Parsed) :=
  parse_with (S (length (match content payload with Some s => s | None => [] end)))
             payload.

End Parse.

(* ===================================================================== *)
(** * Message.format *)
(* ===================================================================== *)

(** ** The outside world of [format]

    [format] draws two random numbers and reads the clock twice.  The world
    holds what the random source and the clock answer, call after call, and
    how many answers were used. *)
Record World := {
  random_draws : nat -> Z;
  random_used : nat;
  clock_reads : nat -> Z;
  clock_used : nat;
}.

Definition IO (A : Type) : Type := World -> A * World.

Definition ret {A} (a : A) : IO A := fun w => (a, w).

Definition io_bind {A B} (c : IO A) (k : A -> IO B) : IO B :=
  fun w => let (a, w') := c w in k a w'.

Declare Scope io_scope.
Delimit Scope io_scope with io.
Notation "x <- c ;; k" := (io_bind c (fun x => k))
  (at level 61, c at next level, right associativity) : io_scope.

(** [crypto.randomInt(min, max)] of Node.js: an integer [n] with
    [min <= n < max], the upper bound excluded.  Node reduces a raw draw
    [x] of the random source, uniform on a whole number of periods of
    length [max - min], to [x % (max - min) + min]. *)
Definition randomInt_of (min max x : Z) : Z := x mod (max - min) + min.

Definition randomInt (min max : Z) : IO Z :=
  fun w =>
    (randomInt_of min max (random_draws w (random_used w)),
     {| random_draws := random_draws w;
        random_used := S (random_used w);
        clock_reads := clock_reads w;
        clock_used := clock_used w |}).

(** [Date.now()]: milliseconds since the epoch. *)
Definition Date_now : IO Z :=
  fun w =>
    (clock_reads w (clock_used w),
     {| random_draws := random_draws w;
        random_used := random_used w;
        clock_reads := clock_reads w;
        clock_used := S (clock_used w) |}).

(** [Number((ms / 1000).toFixed(0))]: [toFixed(0)] rounds to the nearest
    integer and away from zero on a tie.  The quotient [k + 1/2] is exact
    in double precision, so for the integers a clock returns the rounding
    is the integer one below. *)
Definition seconds (ms : Z) : Z :=
  if ms <? 0 then - ((- ms + 500) / 1000) else (ms + 500) / 1000.

(** ** The input of [format] *)

(** Modelled from the spec: the element union [MessageElem] of [@/elements],
    a type declaration that [message.ts] imports.  The fields are those
    [format] reads; [Unknown] is an element whose type is none of the ten
    labels of the [switch]. *)
Inductive MessageElem (Dict : Type) :=
| Text (text : jsstring)
| Face (id : jsstring)
| At (id : option jsstring)
| Link (channel_id : jsstring)
| Image (file : jsstring)
| Audio (file : jsstring)
| Video (file : jsstring)
| Reply (message_id : jsstring)
| Markdown (content : jsstring)
| Button (data : Dict)
| Unknown (type : jsstring).
Arguments Text {Dict}.
Arguments Face {Dict}.
Arguments At {Dict}.
Arguments Link {Dict}.
Arguments Image {Dict}.
Arguments Audio {Dict}.
Arguments Video {Dict}.
Arguments Reply {Dict}.
Arguments Markdown {Dict}.
Arguments Button {Dict}.
Arguments Unknown {Dict}.

(** An item of a [Sendable]: a bare string or an element. *)
Inductive Item (Dict : Type) :=
| Str (s : jsstring)
| Elem (e : MessageElem Dict).
Arguments Str {Dict}.
Arguments Elem {Dict}.

(** [Sendable]: one item or an array of items. *)
Inductive Sendable (Dict : Type) :=
| Single (item : Item Dict)
| Sequence (items : list (Item Dict)).
Arguments Single {Dict}.
Arguments Sequence {Dict}.

(** [Quotable]: both properties are optional. *)
Record Quotable := {
  message_id : option jsstring;
  event_id : option jsstring;
}.

(** The default [source = {}]. *)
Definition no_source : Quotable := {| message_id := None; event_id := None |}.

(** ** The two payloads *)

Module Keyboard.
Record row (Dict : Type) := { buttons : list Dict }.
Record body (Dict : Type) := { rows : list (row Dict) }.
Record t (Dict : Type) := { content : body Dict }.
Arguments buttons {Dict}.
Arguments rows {Dict}.
Arguments content {Dict}.
End Keyboard.

Module Messages.
Record t (Dict : Type) := {
  msg_type : Z;
  content : jsstring;
  msg_id : option jsstring;
  msg_seq : Z;
  timestamp : Z;
  markdown : option jsstring;            (* markdown.content *)
  keyboard : option (Keyboard.t Dict);
}.
Arguments msg_type {Dict}.
Arguments content {Dict}.
Arguments msg_id {Dict}.
Arguments msg_seq {Dict}.
Arguments timestamp {Dict}.
Arguments markdown {Dict}.
Arguments keyboard {Dict}.

Section Setters.
Context {Dict : Type}.
Definition set_msg_id (m : t Dict) (v : option jsstring) : t Dict :=
  {| msg_type := msg_type m; content := content m; msg_id := v;
     msg_seq := msg_seq m; timestamp := timestamp m;
     markdown := markdown m; keyboard := keyboard m |}.
Definition set_content (m : t Dict) (v : jsstring) : t Dict :=
  {| msg_type := msg_type m; content := v; msg_id := msg_id m;
     msg_seq := msg_seq m; timestamp := timestamp m;
     markdown := markdown m; keyboard := keyboard m |}.
Definition set_markdown (m : t Dict) (v : jsstring) : t Dict :=
  {| msg_type := msg_type m; content := content m; msg_id := msg_id m;
     msg_seq := msg_seq m; timestamp := timestamp m;
     markdown := Some v; keyboard := keyboard m |}.
Definition set_msg_type (m : t Dict) (v : Z) : t Dict :=
  {| msg_type := v; content := content m; msg_id := msg_id m;
     msg_seq := msg_seq m; timestamp := timestamp m;
     markdown := markdown m; keyboard := keyboard m |}.
Definition set_keyboard (m : t Dict) (v : Keyboard.t Dict) : t Dict :=
  {| msg_type := msg_type m; content := content m; msg_id := msg_id m;
     msg_seq := msg_seq m; timestamp := timestamp m;
     markdown := markdown m; keyboard := Some v |}.
(** The [if (messages.content) ... += ... else ... = ...] of the four
    cases that write the content. *)
Definition add_content (m : t Dict) (s : jsstring) : t Dict :=
  match content m with
  | [] => set_content m s
  | c => set_content m (c ++ s)
  end.
End Setters.
End Messages.

Module Files.
Record t := {
  msg_id : option jsstring;
  msg_seq : Z;
  timestamp : Z;
  file_type : option Z;
  content : option jsstring;
  url : option jsstring;
  event_id : option jsstring;
  srv_send_msg : option bool;
}.

Definition set_msg_id (f : t) (v : option jsstring) : t :=
  {| msg_id := v; msg_seq := msg_seq f; timestamp := timestamp f;
     file_type := file_type f; content := content f; url := url f;
     event_id := event_id f; srv_send_msg := srv_send_msg f |}.
End Files.

(** [getType] *)
Definition getType (type : jsstring) : Z :=
  array_indexOf [lit "image"; lit "video"; lit "audio"] type + 1.

(** The variables of the routing pass. *)
Module Pass.
Record t (Dict : Type) := {
  messages : Messages.t Dict;
  files : Files.t;
  hasMessages : bool;
  hasFiles : bool;
  buttons : list Dict;
  brief : jsstring;
}.
Arguments messages {Dict}.
Arguments files {Dict}.
Arguments hasMessages {Dict}.
Arguments hasFiles {Dict}.
Arguments buttons {Dict}.
Arguments brief {Dict}.
End Pass.

(** The object [format] returns. *)
Module Formatted.
Record t (Dict : Type) := {
  messages : Messages.t Dict;
  hasFiles : bool;
  hasMessages : bool;
  brief : jsstring;
  files : Files.t;
}.
Arguments messages {Dict}.
Arguments hasFiles {Dict}.
Arguments hasMessages {Dict}.
Arguments brief {Dict}.
Arguments files {Dict}.
End Formatted.

Section Format.

(** The payload of a button, and [JSON.stringify] on it. *)
Variable Dict : Type.
Variable JSON_stringify : Dict -> jsstring.

(** Lines 230-235: a bare string becomes a text element. *)
Definition as_elem (item : Item Dict) : MessageElem Dict :=
  match item with
  | Str s => Text s
  | Elem e => e
  end.

(** [elem.id || 'everyone'] *)
Definition at_target (id : option jsstring) : jsstring :=
  match id with
  | Some ((_ :: _) as s) => s
  | _ => lit "everyone"
  end.

(** The cases that write [messages.content]. *)
Definition to_content (st : Pass.t Dict) (s marker : jsstring) (hasMessages : bool)
  : Pass.t Dict :=
  {| Pass.messages := Messages.add_content (Pass.messages st) s;
     Pass.files := Pass.files st;
     Pass.hasMessages := hasMessages;
     Pass.hasFiles := Pass.hasFiles st;
     Pass.buttons := Pass.buttons st;
     Pass.brief := Pass.brief st ++ marker |}.

(** Lines 276-287, for [elem.type] one of image, audio, video. *)
Definition to_files (source : Quotable) (st : Pass.t Dict) (type file : jsstring)
  : Pass.t Dict :=
  {| Pass.messages := Pass.messages st;
     Pass.files :=
       {| Files.file_type := Some (getType type);
          Files.content := Some (lit "file");
          Files.url := Some file;
          Files.event_id := event_id source;
          Files.msg_id := message_id source;
          Files.srv_send_msg := Some true;
          Files.msg_seq := Files.msg_seq (Pass.files st);
          Files.timestamp := Files.timestamp (Pass.files st) |};
     Pass.hasMessages := Pass.hasMessages st;
     Pass.hasFiles := true;
     Pass.buttons := Pass.buttons st;
     Pass.brief := Pass.brief st ++ lit "<" ++ type ++ lit ",file=" ++ file ++ lit ">" |}.

(** The body of the loop of lines 229-301. *)
Definition route (source : Quotable) (st : Pass.t Dict) (elem : MessageElem Dict)
  : Pass.t Dict :=
  match elem with
  | Reply message_id =>
      {| Pass.messages := Messages.set_msg_id (Pass.messages st) (Some message_id);
         Pass.files := Files.set_msg_id (Pass.files st) (Some message_id);
         Pass.hasMessages := Pass.hasMessages st;
         Pass.hasFiles := Pass.hasFiles st;
         Pass.buttons := Pass.buttons st;
         Pass.brief := Pass.brief st ++ lit "<$reply,message_id=" ++ message_id ++ lit ">" |}
  | At id =>
      to_content st (lit "<@" ++ at_target id ++ lit ">")
                 (lit "<$at,user=" ++ at_target id ++ lit ">")
                 (Pass.hasMessages st)
  | Link channel_id =>
      to_content st (lit "<#" ++ channel_id ++ lit ">")
                 (lit "<$link,channel=" ++ channel_id ++ lit ">")
                 (Pass.hasMessages st)
  | Text text => to_content st text text true
  | Face id =>
      to_content st (lit "<emoji:" ++ id ++ lit ">")
                 (lit "<$face,id=" ++ id ++ lit ">") true
  | Image file => to_files source st (lit "image") file
  | Audio file => to_files source st (lit "audio") file
  | Video file => to_files source st (lit "video") file
  | Markdown content =>
      {| Pass.messages :=
           Messages.set_msg_type (Messages.set_markdown (Pass.messages st) content) 2;
         Pass.files := Pass.files st;
         Pass.hasMessages := true;
         Pass.hasFiles := Pass.hasFiles st;
         Pass.buttons := Pass.buttons st;
         Pass.brief := Pass.brief st ++ lit "<#markdown,content=" ++ content ++ lit ">" |}
  | Button data =>
      {| Pass.messages := Pass.messages st;
         Pass.files := Pass.files st;
         Pass.hasMessages := Pass.hasMessages st;
         Pass.hasFiles := Pass.hasFiles st;
         Pass.buttons := Pass.buttons st ++ [data];
         Pass.brief := Pass.brief st ++ lit "<$button,data=" ++ JSON_stringify data ++ lit ">" |}
  | Unknown _ => st
  end.

(** Lines 304-306: [for (let i = 0; i < buttons.length; i += 4)
    rows.push(buttons.slice(i, i + 4))], the rows from index [i] on. *)
Equations? rows_from (buttons : list Dict) (i : nat) : list (list Dict)
  by wf (length buttons - i)%nat lt :=
  rows_from buttons i with lt_dec i (length buttons) := {
    | left _ => slice buttons (Z.of_nat i) (Some (Z.of_nat i + 4))
                  :: rows_from buttons (i + 4);
    | right _ => [] }.
Proof. lia. Qed.

(** Lines 302-316. *)
Definition with_keyboard (messages : Messages.t Dict) (buttons : list Dict)
  : Messages.t Dict :=
  match buttons with
  | [] => messages
  | _ =>
      Messages.set_keyboard messages
        {| Keyboard.content :=
             {| Keyboard.rows :=
                  map (fun row => {| Keyboard.buttons := row |})
                      (rows_from buttons 0) |} |}
  end.

(** The state of the pass before the first element (lines 214-227). *)
Definition start (source : Quotable) (seq1 now1 seq2 now2 : Z) : Pass.t Dict :=
  {| Pass.messages :=
       {| Messages.msg_type := 0;
          Messages.content := [];
          Messages.msg_id := message_id source;
          Messages.msg_seq := seq1;
          Messages.timestamp := seconds now1;
          Messages.markdown := None;
          Messages.keyboard := None |};
     Pass.files :=
       {| Files.msg_id := message_id source;
          Files.msg_seq := seq2;
          Files.timestamp := seconds now2;
          Files.file_type := None;
          Files.content := None;
          Files.url := None;
          Files.event_id := None;
          Files.srv_send_msg := None |};
     Pass.hasMessages := false;
     Pass.hasFiles := false;
     Pass.buttons := [];
     Pass.brief := [] |}.

(** Line 228: a message that is not an array becomes a one-item array. *)
Definition as_array (message : Sendable Dict) : list (Item Dict) :=
  match message with
  | Single item => [item]
  | Sequence items => items
  end.

Definition route_all (source : Quotable) (st : Pass.t Dict) (items : list (Item Dict))
  : Pass.t Dict :=
  fold_left (fun st item => route source st (as_elem item)) items st.

(** [Message.format] *)
Definition format (message : Sendable Dict) (source : Quotable)
  : IO (Formatted.t Dict) :=
  (seq1 <- randomInt 1 1000000 ;;
   now1 <- Date_now ;;
   seq2 <- randomInt 1 1000000 ;;
   now2 <- Date_now ;;
   let st := route_all source (start source seq1 now1 seq2 now2) (as_array message) in
   ret {| Formatted.messages := with_keyboard (Pass.messages st) (Pass.buttons st);
          Formatted.hasFiles := Pass.hasFiles st;
          Formatted.hasMessages := Pass.hasMessages st;
          Formatted.brief := Pass.brief st;
          Formatted.files := Pass.files st |})%io.

End Format.

Arguments route {Dict}.
Arguments route_all {Dict}.
Arguments format {Dict}.
Arguments rows_from {Dict}.
Arguments with_keyboard {Dict}.
Arguments start {Dict}.
Arguments as_array {Dict}.
Arguments as_elem {Dict}.

(* ===================================================================== *)
(** * Vocabulary of the specification *)
(* ===================================================================== *)

(** The renaming as the specification words it (section 4.1, rule 1): an
    attribute token is split at its first equals sign, and a key equal to
    [faceId] becomes [id]; every other token is kept. *)
Definition rename_faceId_key (attr : jsstring) : jsstring :=
  match split Chars.equals attr with
  | key :: values =>
      if str_eqb key (lit "faceId")
      then join (lit "=") (lit "id" :: values)
      else attr
  | [] => attr
  end.

(** [p] occurs in [s]. *)
Definition occurs (p s : jsstring) : Prop :=
  exists pre post, s = pre ++ p ++ post.

Definition is_reply {Dict} (e : MessageElem Dict) : bool :=
  match e with Reply _ => true | _ => false end.

Definition is_media {Dict} (e : MessageElem Dict) : bool :=
  match e with Image _ | Audio _ | Video _ => true | _ => false end.

Definition is_at_or_link {Dict} (e : MessageElem Dict) : bool :=
  match e with At _ | Link _ => true | _ => false end.

(** The payloads of the button elements of a message, in order. *)
Fixpoint button_data {Dict} (items : list (Item Dict)) : list Dict :=
  match items with
  | [] => []
  | Elem (Button data) :: items' => data :: button_data items'
  | _ :: items' => button_data items'
  end.

(** The rows of a keyboard as plain lists. *)
Definition keyboard_rows {Dict} (k : Keyboard.t Dict) : list (list Dict) :=
  map Keyboard.buttons (Keyboard.rows (Keyboard.content k)).

(** Worlds and inputs used to run the model. *)
Module Sample.
(** A clock that advances by 200 ms from one read to the next. *)
Definition world : World :=
  {| random_draws := fun n => 999998 + Z.of_nat n;
     random_used := 0;
     clock_reads := fun n => 1700000000400 + 200 * Z.of_nat n;
     clock_used := 0 |}.

(** A world whose random source answers [a - 1], then [b - 1]. *)
Definition world_drawing (a b : Z) : World :=
  {| random_draws := fun n => match n with O => a - 1 | _ => b - 1 end;
     random_used := 0;
     clock_reads := fun _ => 0;
     clock_used := 0 |}.

Definition stringify (data : nat) : jsstring := of_Z (Z.of_nat data).

Definition quoted : Quotable :=
  {| message_id := Some (lit "Q"); event_id := None |}.

Definition payload (template : string) (mentions : option (list Obj)) : Payload :=
  {| content := Some (lit template); attachments := None; mentions := mentions |}.
End Sample.

(** The model instantiated for running it, and inputs to run it on. *)
Module Run.

Definition parse := parse Utils.toLowerCase_ascii Utils.trimQuote.
Definition format := format Sample.stringify.

Definition reply_then_image : Sendable nat :=
  Sequence [Elem (Reply (lit "A")); Elem (Image (lit "f"))].

Definition reply_then_text : Sendable nat :=
  Sequence [Elem (Reply (lit "A")); Str (lit "hi")].

Definition five_buttons : Sendable nat :=
  Sequence [Elem (Button 1%nat); Elem (Button 2%nat); Elem (Button 3%nat);
            Elem (Button 4%nat); Elem (Button 5%nat)].

Definition at_and_link : Sendable nat :=
  Sequence [Elem (At None); Elem (Link (lit "42"))].

Definition two_media : Sendable nat :=
  Sequence [Elem (Image (lit "a")); Elem (Video (lit "b")); Str (lit "t")].

Definition one_markdown : Sendable nat :=
  Sequence [Elem (Markdown (lit "# m"))].

Definition png : Obj :=
  [(lit "content_type", VStr (lit "image/png")); (lit "url", VStr (lit "http://x"))].

Definition user_42 : Obj :=
  [(lit "id", VStr (lit "42")); (lit "user_name", VStr (lit "X"))].

(** A clock that stands still. *)
Definition frozen : World :=
  {| random_draws := fun _ => 0;
     random_used := 0;
     clock_reads := fun _ => 1700000000400;
     clock_used := 0 |}.

End Run.

(** ** Further vocabulary *)

(** The six characters that end an alternative of [regex]. *)
Definition is_closer (c : char) : bool :=
  char_eqb c Chars.dquote || char_eqb c Chars.squote || char_eqb c Chars.backtick
  || char_eqb c Chars.rdquote || char_eqb c Chars.rsquote || char_eqb c Chars.gt.

(** The shape of a match of [regex]: an opening character, a body without
    the closing character, the closing character; a tag has a body. *)
Definition match_shape (m : jsstring) : Prop :=
  exists opening closing body,
    m = opening :: body ++ [closing]
    /\ forallb (fun c => negb (char_eqb c closing)) body = true
    /\ (closing_quote opening = Some closing
        \/ (opening = Chars.lt /\ closing = Chars.gt /\ body <> [])).

Definition has_type (type : string) (elem : Obj) : Prop :=
  get elem (lit "type") = VStr (lit type).

(** Whether an attachment carries a string [content_type]. *)
Definition typed_attachment (attachment : Obj) : bool :=
  match get attachment (lit "content_type") with
  | VStr _ => true
  | _ => false
  end.

Definition sets_hasMessages {Dict} (e : MessageElem Dict) : bool :=
  match e with Text _ | Face _ | Markdown _ => true | _ => false end.

Definition is_markdown {Dict} (e : MessageElem Dict) : bool :=
  match e with Markdown _ => true | _ => false end.

Definition is_unknown {Dict} (e : MessageElem Dict) : bool :=
  match e with Unknown _ => true | _ => false end.

(** What an element adds to the transcript content. *)
Definition content_of {Dict} (e : MessageElem Dict) : jsstring :=
  match e with
  | Text text => text
  | Face id => lit "<emoji:" ++ id ++ lit ">"
  | At id => lit "<@" ++ at_target id ++ lit ">"
  | Link channel_id => lit "<#" ++ channel_id ++ lit ">"
  | _ => []
  end.

(** What an element adds to the brief. *)
Definition marker_of {Dict} (JSON_stringify : Dict -> jsstring) (e : MessageElem Dict)
  : jsstring :=
  match e with
  | Reply message_id => lit "<$reply,message_id=" ++ message_id ++ lit ">"
  | At id => lit "<$at,user=" ++ at_target id ++ lit ">"
  | Link channel_id => lit "<$link,channel=" ++ channel_id ++ lit ">"
  | Text text => text
  | Face id => lit "<$face,id=" ++ id ++ lit ">"
  | Image file => lit "<image,file=" ++ file ++ lit ">"
  | Audio file => lit "<audio,file=" ++ file ++ lit ">"
  | Video file => lit "<video,file=" ++ file ++ lit ">"
  | Markdown content => lit "<#markdown,content=" ++ content ++ lit ">"
  | Button data => lit "<$button,data=" ++ JSON_stringify data ++ lit ">"
  | Unknown _ => []
  end.

(** The file kind code and the file of a media element. *)
Definition media_of {Dict} (e : MessageElem Dict) : option (Z * jsstring) :=
  match e with
  | Image file => Some (1, file)
  | Video file => Some (2, file)
  | Audio file => Some (3, file)
  | _ => None
  end.

(** The five properties that only a media element writes. *)
Definition media_fields (f : Files.t)
  : option Z * option jsstring * option jsstring * option jsstring * option bool :=
  (Files.file_type f, Files.content f, Files.url f, Files.event_id f,
   Files.srv_send_msg f).

(* ===================================================================== *)
(** * Facts about strings *)
(* ===================================================================== *)

Lemma char_eqb_eq (a b : char) : char_eqb a b = true <-> a = b.
Proof. apply N.eqb_eq. Qed.

Lemma char_eqb_refl (a : char) : char_eqb a a = true.
Proof. apply N.eqb_refl. Qed.

Lemma str_eqb_eq (a b : jsstring) : str_eqb a b = true <-> a = b.
Proof.
  revert b; induction a as [|x a IH]; intros [|y b]; simpl;
    try (split; (discriminate || reflexivity)).
  rewrite andb_true_iff, char_eqb_eq, IH.
  split; [intros [-> ->]; reflexivity | intros [= -> ->]; auto].
Qed.

Lemma str_eqb_refl (a : jsstring) : str_eqb a a = true.
Proof. apply str_eqb_eq; reflexivity. Qed.

Lemma startsWith_app (p s : jsstring) : startsWith p (p ++ s) = true.
Proof.
  induction p as [|x p IH]; simpl; [reflexivity|].
  rewrite char_eqb_refl; exact IH.
Qed.

Lemma startsWith_split (p s : jsstring) :
  startsWith p s = true -> s = p ++ skipn (length p) s.
Proof.
  revert s; induction p as [|x p IH]; intros s; simpl; [reflexivity|].
  destruct s as [|y s]; [discriminate|].
  rewrite andb_true_iff, char_eqb_eq; intros [-> H].
  simpl; f_equal; apply IH, H.
Qed.

Lemma upto_split (d : char) (s m : jsstring) :
  upto d s = Some m -> (1 <= length m)%nat /\ exists post, s = m ++ post.
Proof.
  revert m; induction s as [|c s IH]; intros m; simpl; [discriminate|].
  destruct (char_eqb c d).
  - intros [= <-]; split; [simpl; lia | exists s; reflexivity].
  - destruct (upto d s) as [m'|]; [|discriminate].
    intros [= <-]; destruct (IH m' eq_refl) as [Hlen [post ->]].
    split; [simpl; lia | exists post; reflexivity].
Qed.

(** A match of the regular expression at the head of [s] is a prefix of [s]
    of at least two code units. *)
Lemma regex_at_split (s m : jsstring) :
  regex_at s = Some m -> (2 <= length m)%nat /\ exists post, s = m ++ post.
Proof.
  destruct s as [|c rest]; simpl; [discriminate|].
  destruct (closing_quote c) as [d|].
  - destruct (upto d rest) as [m'|] eqn:E; [|discriminate].
    intros [= <-]; destruct (upto_split _ _ _ E) as [Hlen [post ->]].
    split; [simpl; lia | exists post; reflexivity].
  - destruct (char_eqb c Chars.lt); [|discriminate].
    destruct rest as [|x rest']; [discriminate|].
    destruct (char_eqb x Chars.gt); [discriminate|].
    destruct (upto Chars.gt rest') as [m'|] eqn:E; [|discriminate].
    intros [= <-]; destruct (upto_split _ _ _ E) as [Hlen [post ->]].
    split; [simpl; lia | exists post; reflexivity].
Qed.

Lemma regex_match_occurs (s m : jsstring) :
  regex_match s = Some m -> (2 <= length m)%nat /\ occurs m s.
Proof.
  induction s as [|c s IH].
  - discriminate.
  - change (regex_match (c :: s))
      with (match regex_at (c :: s) with
            | Some m' => Some m'
            | None => regex_match s
            end).
    destruct (regex_at (c :: s)) as [m'|] eqn:E.
    + intros [= <-]; destruct (regex_at_split _ _ E) as [Hlen [post Hs]].
      split; [exact Hlen | exists [], post; exact Hs].
    + intros H; destruct (IH H) as [Hlen [pre [post ->]]].
      split; [exact Hlen | exists (c :: pre), post; reflexivity].
Qed.

(** [indexOf] finds a string that occurs, no later than any occurrence. *)
Lemma indexOf_from_occurs (pre p post : jsstring) (i : Z) :
  i <= indexOf_from (pre ++ p ++ post) p i <= i + Z.of_nat (length pre).
Proof.
  revert i; induction pre as [|c pre IH]; intros i.
  - simpl app. assert (H := startsWith_app p post).
    destruct (p ++ post) as [|y t] eqn:E; simpl; rewrite H; simpl; lia.
  - cbn [app indexOf_from].
    destruct (startsWith p (c :: pre ++ p ++ post)).
    + cbn [length]; lia.
    + specialize (IH (i + 1)); cbn [length]; lia.
Qed.

(** Where [indexOf] answers [i + k], the string starts at offset [k]. *)
Lemma indexOf_from_found (s p : jsstring) (i j : Z) :
  indexOf_from s p i = j -> j <> -1 -> 0 <= i ->
  exists k, j = i + Z.of_nat k /\ (k <= length s)%nat
            /\ startsWith p (skipn k s) = true.
Proof.
  revert i; induction s as [|c s IH]; intros i; simpl.
  - destruct (startsWith p []) eqn:E.
    + intros <- _ _; exists 0%nat; simpl; rewrite E; split; [lia | split; [lia | reflexivity]].
    + intros <- H; congruence.
  - destruct (startsWith p (c :: s)) eqn:E.
    + intros <- _ _; exists 0%nat; simpl; rewrite E; repeat split; lia.
    + intros Hj Hne Hi; destruct (IH (i + 1) Hj Hne ltac:(lia)) as [k [-> [Hk Hs]]].
      exists (S k); simpl; repeat split; try lia; exact Hs.
Qed.

Lemma clamp_index_nonneg (len i : Z) :
  0 <= i -> clamp_index len i = Z.min i len.
Proof.
  intros H; unfold clamp_index.
  destruct (i <? 0) eqn:E; [apply Z.ltb_lt in E; lia | reflexivity].
Qed.

Lemma slice_prefix {A} (a : list A) (k : nat) :
  (k <= length a)%nat -> slice a 0 (Some (Z.of_nat k)) = firstn k a.
Proof.
  intros H; unfold slice.
  rewrite !clamp_index_nonneg by lia.
  rewrite Z.min_l, Z.min_l by lia.
  rewrite Z.sub_0_r, Nat2Z.id; reflexivity.
Qed.

Lemma slice_suffix {A} (a : list A) (k : nat) :
  slice a (Z.of_nat k) None = skipn k a.
Proof.
  unfold slice.
  rewrite clamp_index_nonneg by lia.
  destruct (Nat.le_gt_cases k (length a)) as [H|H].
  - rewrite Z.min_l by lia. rewrite Nat2Z.id.
    apply firstn_all2; rewrite length_skipn; lia.
  - rewrite Z.min_r by lia.
    rewrite (skipn_all2 (n := k) a) by lia.
    rewrite Nat2Z.id, skipn_all. apply firstn_nil.
Qed.

(* ===================================================================== *)
(** * The scan loop of [parse] *)
(* ===================================================================== *)

Section ScanFacts.

Variable toLowerCase : jsstring -> jsstring.
Variable trimQuote : jsstring -> jsstring.

(** An iteration that goes on leaves the text after the match: the old
    template is the text before the match, the match, and the new
    template. *)
Lemma scan_step_consumes (payload : Payload) (st st' : Scan) :
  scan_step toLowerCase trimQuote payload st = Normal (Some st') ->
  exists prevText match_,
    (2 <= length match_)%nat
    /\ regex_match (template st) = Some match_
    /\ template st = prevText ++ match_ ++ template st'.
Proof.
  unfold scan_step.
  destruct (regex_match (template st)) as [m|] eqn:E; [|discriminate].
  destruct (regex_match_occurs _ _ E) as [Hlen [pre [post Hs]]].
  destruct m as [|c m]; [discriminate|].
  remember (c :: m) as match_ eqn:Hm.
  assert (Hidx : 0 <= indexOf (template st) match_).
  { unfold indexOf; rewrite Hs. apply indexOf_from_occurs. }
  destruct (indexOf_from_found (template st) match_ 0 _ eq_refl
              ltac:(unfold indexOf in Hidx; lia) ltac:(lia))
    as [k [Hk [Hle Hstart]]].
  fold (indexOf (template st) match_) in Hk.
  rewrite Hk, Z.add_0_l, <- Nat2Z.inj_add, slice_suffix.
  assert (Hsplit : template st
                   = firstn k (template st) ++ match_
                       ++ skipn (k + length match_) (template st)).
  { rewrite <- (firstn_skipn k (template st)) at 1. f_equal.
    rewrite (startsWith_split _ _ Hstart) at 1. f_equal.
    rewrite skipn_skipn. f_equal; lia. }
  cbv zeta.
  destruct (slice (template st) 0 (Some (Z.of_nat k)));
    (destruct (startsWith (lit "<") match_);
     [ destruct (parse_tag toLowerCase trimQuote payload match_) as [[elem marker]|e];
       simpl; [|discriminate] | ]);
    intros [= <-]; exists (firstn k (template st)), match_; simpl;
    (split; [exact Hlen | split; [reflexivity | exact Hsplit]]).
Qed.

(** Each iteration that goes on strictly shrinks the template. *)
Lemma scan_step_shrinks (payload : Payload) (st st' : Scan) :
  scan_step toLowerCase trimQuote payload st = Normal (Some st') ->
  (length (template st') + 2 <= length (template st))%nat.
Proof.
  intros H; destruct (scan_step_consumes _ _ _ H) as [pre [m [Hlen [_ Hs]]]].
  rewrite Hs, !length_app; lia.
Qed.

(** With more iterations allowed than the template has code units, the
    loop reaches its end. *)
Lemma scan_enough_fuel (payload : Payload) (fuel : nat) (st : Scan) :
  (length (template st) < fuel)%nat ->
  exists outcome, scan toLowerCase trimQuote fuel payload st = Some outcome.
Proof.
  revert st; induction fuel as [|fuel IH]; intros st Hlt; [lia|].
  simpl. destruct (template st) as [|c t] eqn:Et; [eauto|].
  destruct (scan_step toLowerCase trimQuote payload st) as [[st'|]|e] eqn:Es; eauto.
  apply IH. apply scan_step_shrinks in Es. rewrite Et in Es; simpl in *; lia.
Qed.

(** Allowing further iterations does not change a result. *)
Lemma scan_fuel_irrelevant (payload : Payload) (fuel fuel' : nat) (st : Scan) outcome :
  scan toLowerCase trimQuote fuel payload st = Some outcome ->
  (fuel <= fuel')%nat ->
  scan toLowerCase trimQuote fuel' payload st = Some outcome.
Proof.
  revert fuel' st; induction fuel as [|fuel IH]; intros fuel' st; [discriminate|].
  destruct fuel' as [|fuel']; [lia|]. simpl.
  destruct (template st); [auto|].
  destruct (scan_step toLowerCase trimQuote payload st) as [[st'|]|e]; auto.
  intros H Hle; apply IH; [exact H | lia].
Qed.

(** C9. For every payload the scan loop of parse ends: an iteration either
    stops the loop or takes a matched segment of at least two code units,
    and the text before it, off the front of the template, which gets
    strictly shorter; so parse yields an outcome (a result or a thrown
    error) on every input. *)
Theorem parse_total (payload : Payload) :
  (forall st st',
      scan_step toLowerCase trimQuote payload st = Normal (Some st') ->
      (exists prevText match_,
          match_ <> []
          /\ template st = prevText ++ match_ ++ template st')
      /\ (length (template st') < length (template st))%nat)
  /\ exists outcome, parse toLowerCase trimQuote payload = Some outcome.
Proof.
  split.
  - intros st st' H. split.
    + destruct (scan_step_consumes _ _ _ H) as [pre [m [Hlen [_ Hs]]]].
      exists pre, m; split; [|exact Hs].
      intros ->; simpl in Hlen; lia.
    + apply scan_step_shrinks in H; lia.
  - unfold parse, parse_with.
    match goal with
    | |- context [scan _ _ ?f ?p ?s] =>
        destruct (scan_enough_fuel p f s) as [outcome Ho]
    end.
    + simpl. destruct (content payload) as [[|c s]|]; simpl; lia.
    + rewrite Ho. destruct outcome; eauto.
Qed.

End ScanFacts.

(* ===================================================================== *)
(** * Tags and quoted runs *)
(* ===================================================================== *)

Section TagFacts.

Variable toLowerCase : jsstring -> jsstring.
Variable trimQuote : jsstring -> jsstring.

(** The first iteration on a template that starts with a match. *)
Lemma scan_step_head (payload : Payload) (st : Scan) (match_ rest : jsstring) :
  template st = match_ ++ rest ->
  regex_at (match_ ++ rest) = Some match_ ->
  scan_step toLowerCase trimQuote payload st
  = if startsWith (lit "<") match_ then
      ('(elem, marker) <- parse_tag toLowerCase trimQuote payload match_ ;;
       Normal (Some {| template := rest;
                       result := result st ++ [elem];
                       brief := brief st ++ marker |}))%completion
    else
      Normal (Some {| template := rest;
                      result := result st ++ [quoted_elem match_];
                      brief := brief st ++ match_ |}).
Proof.
  intros Ht Hat. unfold scan_step. rewrite Ht.
  assert (Hm : regex_match (match_ ++ rest) = Some match_).
  { destruct (match_ ++ rest) as [|c s] eqn:E; [discriminate|].
    change (regex_match (c :: s))
      with (match regex_at (c :: s) with
            | Some m' => Some m'
            | None => regex_match s
            end).
    rewrite Hat; reflexivity. }
  rewrite Hm.
  destruct (regex_at_split _ _ Hat) as [Hlen _].
  destruct match_ as [|c m]; [simpl in Hlen; lia|].
  assert (Hi : indexOf ((c :: m) ++ rest) (c :: m) = 0).
  { unfold indexOf.
    change ((c :: m) ++ rest) with (c :: m ++ rest).
    cbn [indexOf_from].
    change (c :: m ++ rest) with ((c :: m) ++ rest).
    rewrite startsWith_app; reflexivity. }
  rewrite Hi. cbv zeta.
  rewrite (slice_prefix _ 0) by lia.
  change (0 + Z.of_nat (length (c :: m))) with (Z.of_nat (length (c :: m))).
  rewrite slice_suffix, skipn_app, skipn_all, Nat.sub_diag.
  reflexivity.
Qed.

(** The first link of the loop on such a template. *)
Lemma parse_head_throws (payload : Payload) (match_ rest : jsstring) (e : Error) :
  content payload = Some (match_ ++ rest) ->
  regex_at (match_ ++ rest) = Some match_ ->
  startsWith (lit "<") match_ = true ->
  parse_tag toLowerCase trimQuote payload match_ = Throw e ->
  parse toLowerCase trimQuote payload = Some (Throw e).
Proof.
  intros Hc Hat Hlt Htag. unfold parse, parse_with. rewrite Hc.
  destruct (regex_at_split _ _ Hat) as [Hlen _].
  destruct (match_ ++ rest) as [|c s] eqn:E.
  { destruct match_; simpl in *; [lia | discriminate]. }
  cbn [scan template].
  rewrite (scan_step_head payload _ match_ rest) by (simpl; congruence).
  rewrite Hlt, Htag. reflexivity.
Qed.

(** The [at] tag of everyone cannot be turned into an element, whatever
    the mentions are: the callback calls [split] on an array. *)
Lemma parse_tag_everyone (payload : Payload) :
  parse_tag toLowerCase trimQuote payload (lit "<@everyone>")
  = Throw (TypeError "attr.split is not a function").
Proof. reflexivity. Qed.

(** C2. A template that starts with the tag of everyone (and goes on in
    any way) makes parse throw a TypeError instead of appending an at
    element with attribute all: line 159 stores an array in [attrs] and
    line 168 calls [split] on it. *)
Theorem parse_everyone_throws
    (rest : jsstring) (attachments : option (list Obj)) (mentions : option (list Obj)) :
  parse toLowerCase trimQuote
        {| content := Some (lit "<@everyone>" ++ rest);
           attachments := attachments;
           mentions := mentions |}
  = Some (Throw (TypeError "attr.split is not a function")).
Proof.
  apply (parse_head_throws _ (lit "<@everyone>") rest); reflexivity.
Qed.

(** With the mentions present and no record of that id, the tag resolves
    to an [at] element without attributes. *)
Lemma unmatched_mention_elem (payload : Payload) (us : list Obj)
    (id : jsstring) (attrs : list jsstring) :
  mentions payload = Some us ->
  find_mention (Some us) id = Normal None ->
  (type_attrs <- normalize (mentions payload) (lit "@!" ++ id) attrs ;;
   tag_elem toLowerCase trimQuote (fst type_attrs) (snd type_attrs))%completion
  = Normal [(lit "type", VStr (lit "at"))].
Proof.
  intros -> H. unfold normalize.
  change (startsWith (lit "faceType") (lit "@!" ++ id)) with false.
  change (startsWith (lit "@") (lit "@!" ++ id)) with true.
  change (startsWith (lit "@!") (lit "@!" ++ id)) with true.
  cbv iota.
  replace (slice (lit "@!" ++ id) 2 None) with id
    by (symmetry; apply (slice_suffix (lit "@!" ++ id) 2)).
  rewrite H. reflexivity.
Qed.

(** C3. Without a mentions list, resolving a tag [<@!ID>] throws for every
    ID (line 155 calls [find] on the absent list), and so does parse on a
    template that starts with such a tag; the empty attribute set is only
    reached when the list is present. *)
Theorem parse_mention_without_list_throws
    (id : jsstring) (attrs : list jsstring)
    (rest : jsstring) (attachments : option (list Obj)) :
  normalize None (lit "@!" ++ id) attrs
  = Throw (TypeError "Cannot read properties of undefined (reading 'find')")
  /\ parse toLowerCase trimQuote
           {| content := Some (lit "<@!42>" ++ rest);
              attachments := attachments;
              mentions := None |}
     = Some (Throw (TypeError "Cannot read properties of undefined (reading 'find')")).
Proof.
  split; [reflexivity|].
  apply (parse_head_throws _ (lit "<@!42>") rest); reflexivity.
Qed.

(** An iteration whose match is a quoted run pushes [quoted_elem]. *)
Lemma scan_step_quoted (payload : Payload) (st : Scan) (match_ rest : jsstring) :
  template st = match_ ++ rest ->
  regex_at (match_ ++ rest) = Some match_ ->
  startsWith (lit "<") match_ = false ->
  scan_step toLowerCase trimQuote payload st
  = Normal (Some {| template := rest;
                    result := result st ++ [quoted_elem match_];
                    brief := brief st ++ match_ |}).
Proof.
  intros Ht Hat Hq. rewrite (scan_step_head payload st match_ rest Ht Hat), Hq.
  reflexivity.
Qed.

(** C7. The template ['hi'] is one quoted run.  parse appends for it an
    element of type text whose [text] property is undefined: the run is
    stored under [data.text] (lines 174-179), unlike the text before a
    match and the text left after the loop, which are stored under [text].
    The brief receives the run verbatim. *)
Theorem parse_quoted_run_shape :
  parse toLowerCase trimQuote (Sample.payload "'hi'" None)
  = Some (Normal {| parsed_result :=
                      [[(lit "type", VStr (lit "text"));
                        (lit "data", VObj [(lit "text", VStr (lit "'hi'"))])]];
                    parsed_brief := lit "'hi'";
                    payload_after := Sample.payload "'hi'" None |})
  /\ get (quoted_elem (lit "'hi'")) (lit "text") = VUndef
  /\ get (text_elem (lit "'hi'")) (lit "text") = VStr (lit "'hi'").
Proof. repeat split; reflexivity. Qed.

(** Wherever in the template the next match is the tag of everyone, the
    iteration throws. *)
Lemma scan_step_everyone_throws (payload : Payload) (st : Scan) :
  regex_match (template st) = Some (lit "<@everyone>") ->
  scan_step toLowerCase trimQuote payload st
  = Throw (TypeError "attr.split is not a function").
Proof.
  intros H. unfold scan_step. rewrite H. cbv zeta.
  destruct (slice (template st) 0
              (Some (indexOf (template st) (lit "<@everyone>")))); reflexivity.
Qed.

(** Wherever in the template the next match is a quoted run, the element
    pushed for it has no [text] property. *)
Lemma scan_step_quoted_anywhere (payload : Payload) (st : Scan) (match_ : jsstring) :
  regex_match (template st) = Some match_ ->
  startsWith (lit "<") match_ = false ->
  exists st',
    scan_step toLowerCase trimQuote payload st = Normal (Some st')
    /\ last (result st') [] = quoted_elem match_
    /\ get (quoted_elem match_) (lit "text") = VUndef
    /\ brief st' = brief st ++ slice (template st) 0 (Some (indexOf (template st) match_))
                      ++ match_.
Proof.
  intros H Hq. unfold scan_step. rewrite H.
  destruct (regex_match_occurs _ _ H) as [Hlen _].
  destruct match_ as [|c m]; [simpl in Hlen; lia|].
  cbv zeta. rewrite Hq.
  destruct (slice (template st) 0 (Some (indexOf (template st) (c :: m))));
    eexists; (split; [reflexivity|]); cbn [result brief];
    rewrite last_last; repeat split.
  rewrite <- app_assoc. reflexivity.
Qed.

End TagFacts.

(* ===================================================================== *)
(** * The faceType rule *)
(* ===================================================================== *)

Lemma indexOf_from_range (s p : jsstring) (i : Z) :
  indexOf_from s p i = -1 \/ i <= indexOf_from s p i.
Proof.
  revert i; induction s as [|c s IH]; intros i; simpl.
  - destruct (startsWith p []); [right; lia | left; reflexivity].
  - destruct (startsWith p (c :: s)); [right; lia|].
    destruct (IH (i + 1)) as [H|H]; [left; exact H | right; lia].
Qed.

(** [replace] rewrites exactly what [indexOf] locates. *)
Lemma replace_indexOf_from (p r s : jsstring) (i : Z) :
  0 <= i ->
  (indexOf_from s p i = -1 -> replace p r s = s)
  /\ (forall k : nat,
         indexOf_from s p i = i + Z.of_nat k ->
         replace p r s = firstn k s ++ r ++ skipn (k + length p) s).
Proof.
  revert i; induction s as [|c s IH]; intros i Hi.
  - cbn [indexOf_from replace]. destruct (startsWith p []) eqn:E.
    + split; [lia|]. intros k Hk. assert (k = 0%nat) by lia; subst k. reflexivity.
    + split; [reflexivity | intros k Hk; lia].
  - cbn [indexOf_from replace]. destruct (startsWith p (c :: s)) eqn:E.
    + split; [lia|]. intros k Hk. assert (k = 0%nat) by lia; subst k. reflexivity.
    + destruct (IH (i + 1) ltac:(lia)) as [IH1 IH2]. split.
      * intros H; rewrite (IH1 H); reflexivity.
      * intros k Hk.
        destruct (indexOf_from_range s p (i + 1)) as [Hr|Hr]; [lia|].
        destruct k as [|k]; [lia|].
        rewrite (IH2 k) by lia. reflexivity.
Qed.

Lemma replace_absent (p r s : jsstring) :
  indexOf s p = -1 -> replace p r s = s.
Proof. apply (replace_indexOf_from p r s 0); lia. Qed.

Lemma replace_first (p r s : jsstring) (k : nat) :
  indexOf s p = Z.of_nat k ->
  replace p r s = firstn k s ++ r ++ skipn (k + length p) s.
Proof. intros H; apply (replace_indexOf_from p r s 0); [lia | exact H]. Qed.

Lemma split_nonempty (sep : char) (s : jsstring) : split sep s <> [].
Proof.
  destruct s as [|c s]; simpl; [discriminate|].
  destruct (char_eqb c sep); [discriminate|].
  destruct (split sep s); discriminate.
Qed.

Lemma join_cons (sep x : jsstring) (a : list jsstring) :
  a <> [] -> join sep (x :: a) = x ++ sep ++ join sep a.
Proof. destruct a; [congruence | reflexivity]. Qed.

(** Joining what [split] produced gives the string back. *)
Lemma join_split (sep : char) (s : jsstring) :
  join [sep] (split sep s) = s.
Proof.
  induction s as [|c s IH]; [reflexivity|].
  cbn [split]. destruct (char_eqb c sep) eqn:E.
  - apply char_eqb_eq in E; subst c.
    rewrite join_cons by apply split_nonempty.
    rewrite IH; reflexivity.
  - assert (Hne := split_nonempty sep s).
    destruct (split sep s) as [|w ws]; [congruence|].
    destruct ws as [|w' ws].
    + simpl in *; congruence.
    + rewrite join_cons in * by discriminate.
      rewrite <- IH; reflexivity.
Qed.

Lemma get_set_other (o : Obj) (k k' : jsstring) (v : Value) :
  k' <> k -> get (set o k' v) k = get o k.
Proof.
  intros Hne; induction o as [|[k0 v0] o IH]; simpl.
  - destruct (str_eqb k' k) eqn:E; [apply str_eqb_eq in E; congruence | reflexivity].
  - destruct (str_eqb k0 k') eqn:E; simpl.
    + apply str_eqb_eq in E; subst k0.
      destruct (str_eqb k' k) eqn:E'; [apply str_eqb_eq in E'; congruence | reflexivity].
    + rewrite IH; reflexivity.
Qed.

(** Spreading properties of other names leaves a property as it was. *)
Lemma get_spread_other (target src : Obj) (k : jsstring) :
  Forall (fun kv => fst kv <> k) src -> get (spread target src) k = get target k.
Proof.
  unfold spread. revert target; induction src as [|[k' v] src IH]; intros target H.
  - reflexivity.
  - inversion H as [|? ? Hk Hrest]; subst. simpl in *.
    rewrite IH by exact Hrest. apply get_set_other; exact Hk.
Qed.

Lemma set_keys (o : Obj) (k : jsstring) (v : Value) (kv : jsstring * Value) :
  In kv (set o k v) -> fst kv = k \/ In (fst kv) (map fst o).
Proof.
  induction o as [|[k0 v0] o IH]; simpl.
  - intros [<-|[]]; left; reflexivity.
  - destruct (str_eqb k0 k) eqn:E; simpl.
    + apply str_eqb_eq in E; subst k0.
      intros [<-|H]; [left; reflexivity | right; right; apply in_map; exact H].
    + intros [<-|H]; [right; left; reflexivity|].
      destruct (IH H) as [H'|H']; [left; exact H' | right; right; exact H'].
Qed.

Lemma spread_keys (target src : Obj) (kv : jsstring * Value) :
  In kv (spread target src) ->
  In (fst kv) (map fst target) \/ In (fst kv) (map fst src).
Proof.
  unfold spread. revert target; induction src as [|[k v] src IH]; intros target; simpl.
  - intros H; left; apply in_map; exact H.
  - intros H. destruct (IH _ H) as [H'|H']; [|right; right; exact H'].
    apply in_map_iff in H'. destruct H' as [kv' [Heq Hin]].
    destruct (set_keys _ _ _ _ Hin) as [Hk|Hk].
    + right; left; simpl. congruence.
    + left. rewrite <- Heq. exact Hk.
Qed.

Lemma replace_unfold (p r s : jsstring) :
  replace p r s
  = if startsWith p s then r ++ skipn (length p) s
    else match s with
         | [] => []
         | c :: s' => c :: replace p r s'
         end.
Proof. destruct s; reflexivity. Qed.

Lemma replace_head (p r x : jsstring) : replace p r (p ++ x) = r ++ x.
Proof.
  rewrite replace_unfold, startsWith_app, skipn_app, skipn_all, Nat.sub_diag.
  reflexivity.
Qed.

(** On a token whose key is [faceId] the source and the specification's
    wording agree: the key becomes [id] and the value is kept. *)
Lemma replace_key_faceId (attr : jsstring) :
  hd [] (split Chars.equals attr) = lit "faceId" ->
  replace (lit "faceId") (lit "id") attr = rename_faceId_key attr.
Proof.
  intros Hkey. unfold rename_faceId_key.
  assert (Hjoin := join_split Chars.equals attr).
  destruct (split Chars.equals attr) as [|key values]; [discriminate|].
  simpl in Hkey; subst key. rewrite str_eqb_refl.
  rewrite <- Hjoin. destruct values as [|v values].
  - reflexivity.
  - rewrite !join_cons by discriminate. apply replace_head.
Qed.

Section FaceFacts.

Variable toLowerCase : jsstring -> jsstring.
Variable trimQuote : jsstring -> jsstring.

(** The [type] property of a tag's element is the normalized type as long
    as no attribute key spells [type]. *)
Lemma tag_elem_type (type : jsstring) (attrs : list Attr) (entries : list (jsstring * Value)) :
  array_map (attr_entry toLowerCase trimQuote) attrs = Normal entries ->
  Forall (fun kv => fst kv <> lit "type") entries ->
  exists elem,
    tag_elem toLowerCase trimQuote type attrs = Normal elem
    /\ get elem (lit "type") = VStr type.
Proof.
  intros Hmap Hkeys. unfold tag_elem. rewrite Hmap. simpl bind.
  eexists; split; [reflexivity|].
  rewrite get_spread_other; [reflexivity|].
  apply Forall_forall. intros kv Hin.
  destruct (spread_keys [] entries kv Hin) as [[]|H].
  apply in_map_iff in H. destruct H as [kv' [Heq Hin']].
  rewrite <- Heq. exact (proj1 (Forall_forall _ _) Hkeys kv' Hin').
Qed.

(** C6 (amended). For a tag whose type starts with faceType the normalized
    type is face, and every attribute token has the first occurrence of the
    substring faceId, wherever it lies in the token, replaced by id: a
    token without that substring is kept, a token whose key equals faceId
    gets the key id and keeps its value, and the element's type property is
    face when no attribute key spells type. *)
Theorem faceType_rule
    (mentions : option (list Obj)) (type : jsstring) (attrs : list jsstring) :
  startsWith (lit "faceType") type = true ->
  let attrs' := map (replace (lit "faceId") (lit "id")) attrs in
  normalize mentions type attrs = Normal (lit "face", map AStr attrs')
  /\ (forall attr, indexOf attr (lit "faceId") = -1 ->
                   replace (lit "faceId") (lit "id") attr = attr)
  /\ (forall attr (k : nat),
         indexOf attr (lit "faceId") = Z.of_nat k ->
         replace (lit "faceId") (lit "id") attr
         = firstn k attr ++ lit "id" ++ skipn (k + 6) attr)
  /\ (forall attr, hd [] (split Chars.equals attr) = lit "faceId" ->
                   replace (lit "faceId") (lit "id") attr = rename_faceId_key attr)
  /\ (forall entries,
         array_map (attr_entry toLowerCase trimQuote) (map AStr attrs') = Normal entries ->
         Forall (fun kv => fst kv <> lit "type") entries ->
         exists elem,
           tag_elem toLowerCase trimQuote (lit "face") (map AStr attrs') = Normal elem
           /\ get elem (lit "type") = VStr (lit "face")).
Proof.
  intros Hface attrs'. repeat split.
  - unfold normalize. rewrite Hface. unfold attrs'. rewrite map_map. reflexivity.
  - intros attr; apply replace_absent.
  - intros attr k; apply (replace_first (lit "faceId") (lit "id") attr k).
  - apply replace_key_faceId.
  - intros entries; apply tag_elem_type.
Qed.

End FaceFacts.

(** C6 (witness). The tag [<faceType,faceId=3>]. *)
Lemma faceType_rule_witness :
  startsWith (lit "faceType") (lit "faceType") = true
  /\ normalize None (lit "faceType") [lit "faceId=3"]
     = Normal (lit "face", [AStr (lit "id=3")]).
Proof.
  split; [reflexivity|].
  exact (proj1 (faceType_rule Utils.toLowerCase_ascii Utils.trimQuote
                  None (lit "faceType") [lit "faceId=3"] eq_refl)).
Defined.

(** C6 (counterexample). In [<faceType,x=faceId>] the key is x, and the
    value faceId is rewritten to id; in [<faceType,myfaceId=1>] the key
    only contains faceId and is rewritten to myid; in [<faceType,type=x>]
    the element's type is x.  The rule as the specification words it keeps
    the first two tokens. *)
Lemma faceType_rule_counterexample :
  (normalize None (lit "faceType") [lit "x=faceId"]
   = Normal (lit "face", [AStr (lit "x=id")])
   /\ rename_faceId_key (lit "x=faceId") = lit "x=faceId"
   /\ lit "x=id" <> lit "x=faceId")
  /\ (normalize None (lit "faceType") [lit "myfaceId=1"]
      = Normal (lit "face", [AStr (lit "myid=1")])
      /\ rename_faceId_key (lit "myfaceId=1") = lit "myfaceId=1"
      /\ lit "myid=1" <> lit "myfaceId=1")
  /\ parse Utils.toLowerCase_ascii Utils.trimQuote
           (Sample.payload "<faceType,x=faceId>" None)
     = Some (Normal {| parsed_result :=
                         [[(lit "type", VStr (lit "face")); (lit "x", VStr (lit "id"))]];
                       parsed_brief := lit "<face:x=id>";
                       payload_after := Sample.payload "<faceType,x=faceId>" None |})
  /\ parse Utils.toLowerCase_ascii Utils.trimQuote
           (Sample.payload "<faceType,type=x>" None)
     = Some (Normal {| parsed_result := [[(lit "type", VStr (lit "x"))]];
                       parsed_brief := lit "<face:type=x>";
                       payload_after := Sample.payload "<faceType,type=x>" None |}).
Proof.
  repeat split; try reflexivity; discriminate.
Qed.

(* ===================================================================== *)
(** * The routing pass of [format] *)
(* ===================================================================== *)

Section FormatFacts.

Variable Dict : Type.
Variable JSON_stringify : Dict -> jsstring.

Abbreviation route_all' := (route_all JSON_stringify).
Abbreviation format' := (format JSON_stringify).

(** [format] with the four reads of the world spelled out. *)
Lemma format_unfold (message : Sendable Dict) (source : Quotable) (w : World) :
  fst (format' message source w)
  = let st := route_all' source
                (start source
                   (randomInt_of 1 1000000 (random_draws w (random_used w)))
                   (clock_reads w (clock_used w))
                   (randomInt_of 1 1000000 (random_draws w (S (random_used w))))
                   (clock_reads w (S (clock_used w))))
                (as_array message) in
    {| Formatted.messages := with_keyboard (Pass.messages st) (Pass.buttons st);
       Formatted.hasFiles := Pass.hasFiles st;
       Formatted.hasMessages := Pass.hasMessages st;
       Formatted.brief := Pass.brief st;
       Formatted.files := Pass.files st |}.
Proof. reflexivity. Qed.

Lemma route_all_app (source : Quotable) (st : Pass.t Dict) (a b : list (Item Dict)) :
  route_all' source st (a ++ b) = route_all' source (route_all' source st a) b.
Proof. apply fold_left_app. Qed.

Lemma route_all_cons (source : Quotable) (st : Pass.t Dict) (x : Item Dict) (l : list (Item Dict)) :
  route_all' source st (x :: l)
  = route_all' source (route JSON_stringify source st (as_elem x)) l.
Proof. reflexivity. Qed.

(** No case of the pass touches a sequence number or a timestamp. *)
Lemma route_all_frame (source : Quotable) (items : list (Item Dict)) (st : Pass.t Dict) :
  let st' := route_all' source st items in
  Messages.msg_seq (Pass.messages st') = Messages.msg_seq (Pass.messages st)
  /\ Messages.timestamp (Pass.messages st') = Messages.timestamp (Pass.messages st)
  /\ Files.msg_seq (Pass.files st') = Files.msg_seq (Pass.files st)
  /\ Files.timestamp (Pass.files st') = Files.timestamp (Pass.files st).
Proof.
  revert st; induction items as [|x items IH]; intros st; [repeat split|].
  rewrite route_all_cons. cbv zeta in *.
  destruct (IH (route JSON_stringify source st (as_elem x))) as [H1 [H2 [H3 H4]]].
  rewrite H1, H2, H3, H4.
  destruct (as_elem x); simpl; unfold Messages.add_content;
    try destruct (Messages.content (Pass.messages st)); repeat split.
Qed.

Lemma with_keyboard_frame (m : Messages.t Dict) (buttons : list Dict) :
  Messages.msg_id (with_keyboard m buttons) = Messages.msg_id m
  /\ Messages.msg_seq (with_keyboard m buttons) = Messages.msg_seq m
  /\ Messages.timestamp (with_keyboard m buttons) = Messages.timestamp m
  /\ Messages.content (with_keyboard m buttons) = Messages.content m.
Proof. destruct buttons; repeat split. Qed.

(** After the last reply: the transcript keeps its [msg_id]; the file
    payload keeps it until an image, audio or video element assigns the
    message id of the quote reference. *)
Lemma route_all_without_reply (source : Quotable) (post : list (Item Dict)) (st : Pass.t Dict) :
  forallb (fun item => negb (is_reply (as_elem item))) post = true ->
  let st' := route_all' source st post in
  Messages.msg_id (Pass.messages st') = Messages.msg_id (Pass.messages st)
  /\ Files.msg_id (Pass.files st')
     = if existsb (fun item => is_media (as_elem item)) post
       then message_id source
       else Files.msg_id (Pass.files st).
Proof.
  revert st; induction post as [|x post IH]; intros st; [repeat split|].
  cbn [forallb existsb]. rewrite andb_true_iff. intros [Hx Hpost].
  rewrite route_all_cons. cbv zeta in *.
  destruct (IH (route JSON_stringify source st (as_elem x)) Hpost) as [H1 H2].
  rewrite H1, H2.
  destruct (as_elem x); simpl in *; try discriminate;
    unfold Messages.add_content;
    try destruct (Messages.content (Pass.messages st));
    destruct (existsb _ post); split; reflexivity.
Qed.

(** What format leaves in the two [msg_id]s when the last reply of the
    input carries [id]. *)
Lemma format_after_last_reply
    (message : Sendable Dict) (source : Quotable) (w : World)
    (pre post : list (Item Dict)) (id : jsstring) :
  as_array message = pre ++ Elem (Reply id) :: post ->
  forallb (fun item => negb (is_reply (as_elem item))) post = true ->
  let r := fst (format' message source w) in
  Messages.msg_id (Formatted.messages r) = Some id
  /\ Files.msg_id (Formatted.files r)
     = if existsb (fun item => is_media (as_elem item)) post
       then message_id source
       else Some id.
Proof.
  intros Hsplit Hlast. rewrite format_unfold, Hsplit. cbv zeta.
  cbn [Formatted.messages Formatted.files].
  rewrite (proj1 (with_keyboard_frame _ _)).
  rewrite route_all_app, route_all_cons.
  match goal with
  | |- context [route_all' source ?st post] =>
      destruct (route_all_without_reply source post st Hlast) as [H1 H2]
  end.
  cbv zeta in *. rewrite H1, H2. split; reflexivity.
Qed.

(** An input with a reply element has a last one. *)
Lemma last_reply_split (items : list (Item Dict)) :
  existsb (fun item => is_reply (as_elem item)) items = true ->
  exists pre id post,
    items = pre ++ Elem (Reply id) :: post
    /\ forallb (fun item => negb (is_reply (as_elem item))) post = true.
Proof.
  induction items as [|x items IH]; [discriminate|].
  cbn [existsb].
  destruct (existsb (fun item => is_reply (as_elem item)) items) eqn:E.
  - intros _. destruct (IH eq_refl) as [pre [id [post [-> Hpost]]]].
    exists (x :: pre), id, post. split; [reflexivity | exact Hpost].
  - rewrite orb_false_r. intros Hx.
    destruct x as [s|e]; [discriminate|].
    destruct e as [t|f|i|c|f|f|f|id|c|d|t]; try discriminate.
    exists [], id, items. split; [reflexivity|].
    rewrite forallb_forall. intros y Hy.
    destruct (is_reply (as_elem y)) eqn:Ey; [|reflexivity].
    assert (Hex : existsb (fun item => is_reply (as_elem item)) items = true).
    { apply existsb_exists. exists y. split; assumption. }
    congruence.
Qed.

(** C1 (amended). For every input with at least one reply element, let
    [id] be the message id of the last one.  After format the transcript
    payload's msg_id is [id]; the file payload's msg_id is [id] when no
    image, audio or video element follows that reply, and the message id
    of the quote reference when one does. *)
Theorem format_reply_msg_id
    (message : Sendable Dict) (source : Quotable) (w : World) :
  existsb (fun item => is_reply (as_elem item)) (as_array message) = true ->
  exists pre id post,
    as_array message = pre ++ Elem (Reply id) :: post
    /\ forallb (fun item => negb (is_reply (as_elem item))) post = true
    /\ let r := fst (format' message source w) in
       Messages.msg_id (Formatted.messages r) = Some id
       /\ Files.msg_id (Formatted.files r)
          = if existsb (fun item => is_media (as_elem item)) post
            then message_id source
            else Some id.
Proof.
  intros Hex. destruct (last_reply_split _ Hex) as [pre [id [post [Hsplit Hpost]]]].
  exists pre, id, post. split; [exact Hsplit|]. split; [exact Hpost|].
  exact (format_after_last_reply message source w pre post id Hsplit Hpost).
Qed.

(** C4 (amended). The transcript timestamp is the first clock read of the
    call, the file timestamp the second one, each rounded to seconds; they
    are equal exactly when the two reads round to the same second. *)
Theorem format_timestamps (message : Sendable Dict) (source : Quotable) (w : World) :
  let r := fst (format' message source w) in
  Messages.timestamp (Formatted.messages r) = seconds (clock_reads w (clock_used w))
  /\ Files.timestamp (Formatted.files r) = seconds (clock_reads w (S (clock_used w)))
  /\ (Messages.timestamp (Formatted.messages r) = Files.timestamp (Formatted.files r)
      <-> seconds (clock_reads w (clock_used w))
          = seconds (clock_reads w (S (clock_used w)))).
Proof.
  rewrite format_unfold. cbv zeta. cbn [Formatted.messages Formatted.files].
  match goal with
  | |- context [route_all' source ?st0 (as_array message)] =>
      destruct (route_all_frame source (as_array message) st0) as [_ [H2 [_ H4]]]
  end.
  cbv zeta in *.
  rewrite (proj1 (proj2 (proj2 (with_keyboard_frame _ _)))), H2, H4.
  simpl. repeat split; auto.
Qed.

(** [randomInt(1, 1000000)] never answers 1000000. *)
Lemma randomInt_of_range (x : Z) : 1 <= randomInt_of 1 1000000 x <= 999999.
Proof.
  unfold randomInt_of. change (1000000 - 1) with 999999.
  pose proof (Z.mod_pos_bound x 999999 ltac:(lia)). lia.
Qed.

Lemma randomInt_of_small (x : Z) :
  0 <= x < 999999 -> randomInt_of 1 1000000 x = x + 1.
Proof.
  intros H. unfold randomInt_of. change (1000000 - 1) with 999999.
  rewrite Z.mod_small by lia. reflexivity.
Qed.

Lemma randomInt_of_period (x : Z) :
  randomInt_of 1 1000000 (x + 999999) = randomInt_of 1 1000000 x.
Proof.
  unfold randomInt_of. change (1000000 - 1) with 999999.
  rewrite <- (Z.mul_1_l 999999) at 1. rewrite Z.mod_add by lia. reflexivity.
Qed.

(** The sequence numbers are the two draws of the call. *)
Lemma format_msg_seq_draws (message : Sendable Dict) (source : Quotable) (w : World) :
  let r := fst (format' message source w) in
  Messages.msg_seq (Formatted.messages r)
  = randomInt_of 1 1000000 (random_draws w (random_used w))
  /\ Files.msg_seq (Formatted.files r)
     = randomInt_of 1 1000000 (random_draws w (S (random_used w))).
Proof.
  rewrite format_unfold. cbv zeta. cbn [Formatted.messages Formatted.files].
  match goal with
  | |- context [route_all' source ?st0 (as_array message)] =>
      destruct (route_all_frame source (as_array message) st0) as [H1 [_ [H3 _]]]
  end.
  cbv zeta in *.
  rewrite (proj1 (proj2 (with_keyboard_frame _ _))), H1, H3.
  split; reflexivity.
Qed.

(** C5 (amended). Each payload gets its own draw of
    [randomInt(1, 1000000)], whose upper bound is exclusive: both sequence
    numbers lie in [1, 999999]; every pair of values of that range is
    produced by some outcome of the random source; and the draw is uniform
    on that range, for it maps a raw draw [x] to [x mod 999999 + 1], which
    has period 999999 and takes each value once per period. *)
Theorem format_msg_seq (message : Sendable Dict) (source : Quotable) (w : World) :
  let seq_of w0 := (Messages.msg_seq (Formatted.messages (fst (format' message source w0))),
                    Files.msg_seq (Formatted.files (fst (format' message source w0)))) in
  seq_of w = (randomInt_of 1 1000000 (random_draws w (random_used w)),
              randomInt_of 1 1000000 (random_draws w (S (random_used w))))
  /\ 1 <= fst (seq_of w) <= 999999
  /\ 1 <= snd (seq_of w) <= 999999
  /\ (forall a b, 1 <= a <= 999999 -> 1 <= b <= 999999 ->
                  exists w', seq_of w' = (a, b))
  /\ (forall x, randomInt_of 1 1000000 (x + 999999) = randomInt_of 1 1000000 x)
  /\ (forall x v, 0 <= x < 999999 ->
                  (randomInt_of 1 1000000 x = v <-> x = v - 1)).
Proof.
  cbv zeta.
  destruct (format_msg_seq_draws message source w) as [Hm Hf]. cbv zeta in *.
  rewrite Hm, Hf. cbn [fst snd].
  split; [reflexivity|].
  split; [apply randomInt_of_range|].
  split; [apply randomInt_of_range|].
  split; [|split].
  - intros a b Ha Hb. exists (Sample.world_drawing a b).
    destruct (format_msg_seq_draws message source (Sample.world_drawing a b)) as [Hm' Hf'].
    cbv zeta in *. rewrite Hm', Hf'. cbn.
    rewrite !randomInt_of_small by lia. f_equal; lia.
  - apply randomInt_of_period.
  - intros x v Hx. rewrite randomInt_of_small by lia. lia.
Qed.

Lemma add_content_nonempty (m : Messages.t Dict) (s : jsstring) :
  s <> [] -> Messages.content (Messages.add_content m s) <> [].
Proof.
  intros Hs. unfold Messages.add_content.
  destruct (Messages.content m) as [|c t] eqn:E; simpl; [exact Hs | discriminate].
Qed.

Lemma add_content_grows (m : Messages.t Dict) (s : jsstring) :
  Messages.content m <> [] -> Messages.content (Messages.add_content m s) <> [].
Proof.
  intros Hm. unfold Messages.add_content.
  destruct (Messages.content m) as [|c t] eqn:E; simpl; [congruence | discriminate].
Qed.

(** A pass over [at] and [link] elements only writes the content. *)
Lemma route_all_at_link (source : Quotable) (items : list (Item Dict)) (st : Pass.t Dict) :
  forallb (fun item => is_at_or_link (as_elem item)) items = true ->
  let st' := route_all' source st items in
  Pass.hasMessages st' = Pass.hasMessages st
  /\ Pass.hasFiles st' = Pass.hasFiles st
  /\ (items <> [] \/ Messages.content (Pass.messages st) <> [] ->
      Messages.content (Pass.messages st') <> []).
Proof.
  revert st; induction items as [|x items IH]; intros st.
  - intros _; repeat split. intros [H|H]; [congruence | exact H].
  - cbn [forallb]. rewrite andb_true_iff. intros [Hx Hitems].
    rewrite route_all_cons. cbv zeta in *.
    destruct (IH (route JSON_stringify source st (as_elem x)) Hitems) as [H1 [H2 H3]].
    rewrite H1, H2.
    destruct (as_elem x); simpl in Hx; try discriminate;
      (split; [reflexivity | split; [reflexivity|]]);
      intros _; apply H3; right; apply add_content_nonempty; discriminate.
Qed.

(** C10. A non-empty input made of at and link elements only leaves both
    flags false although the transcript content is not empty. *)
Theorem format_at_link_flags (message : Sendable Dict) (source : Quotable) (w : World) :
  as_array message <> [] ->
  forallb (fun item => is_at_or_link (as_elem item)) (as_array message) = true ->
  let r := fst (format' message source w) in
  Formatted.hasMessages r = false
  /\ Formatted.hasFiles r = false
  /\ Messages.content (Formatted.messages r) <> [].
Proof.
  intros Hne Hall. rewrite format_unfold. cbv zeta.
  cbn [Formatted.hasMessages Formatted.hasFiles Formatted.messages].
  match goal with
  | |- context [route_all' source ?st0 (as_array message)] =>
      destruct (route_all_at_link source (as_array message) st0 Hall) as [H1 [H2 H3]]
  end.
  cbv zeta in *.
  rewrite (proj2 (proj2 (proj2 (with_keyboard_frame _ _)))), H1, H2.
  repeat split. apply H3. left; exact Hne.
Qed.

(** The buttons of the pass are the button payloads of the input. *)
Lemma route_all_buttons (source : Quotable) (items : list (Item Dict)) (st : Pass.t Dict) :
  Pass.buttons (route_all' source st items) = Pass.buttons st ++ button_data items.
Proof.
  revert st; induction items as [|x items IH]; intros st.
  - simpl. rewrite app_nil_r. reflexivity.
  - rewrite route_all_cons, IH.
    destruct x as [s|[]]; simpl; rewrite ?app_nil_r; try reflexivity.
    rewrite <- app_assoc. reflexivity.
Qed.

(** [buttons.slice(i, i + 4)] is the next four buttons, or what is left. *)
Lemma slice_window (buttons : list Dict) (i : nat) :
  (i <= length buttons)%nat ->
  slice buttons (Z.of_nat i) (Some (Z.of_nat i + 4)) = firstn 4 (skipn i buttons).
Proof.
  intros Hi. unfold slice. rewrite !clamp_index_nonneg by lia.
  rewrite (Z.min_l (Z.of_nat i)) by lia. rewrite Nat2Z.id.
  destruct (Z.le_gt_cases (Z.of_nat i + 4) (Z.of_nat (length buttons))) as [H|H].
  - rewrite Z.min_l by lia.
    replace (Z.of_nat i + 4 - Z.of_nat i) with 4 by lia. reflexivity.
  - rewrite Z.min_r by lia.
    rewrite !firstn_all2; [reflexivity | |]; rewrite length_skipn; lia.
Qed.

Lemma rows_from_step (buttons : list Dict) (i : nat) :
  (i < length buttons)%nat ->
  rows_from buttons i = firstn 4 (skipn i buttons) :: rows_from buttons (i + 4).
Proof.
  intros Hi. rewrite rows_from_equation_1.
  destruct (lt_dec i (length buttons)) as [H|H]; [|lia].
  simpl. rewrite slice_window by lia. reflexivity.
Qed.

Lemma rows_from_end (buttons : list Dict) (i : nat) :
  (length buttons <= i)%nat -> rows_from buttons i = [].
Proof.
  intros Hi. rewrite rows_from_equation_1.
  destruct (lt_dec i (length buttons)) as [H|H]; [lia | reflexivity].
Qed.

(** The rows from index [i] on: row [j] is the four buttons from
    [i + 4 * j], or what is left of them. *)
Lemma rows_from_spec (buttons : list Dict) (n i : nat) :
  (length buttons - i <= n)%nat ->
  concat (rows_from buttons i) = skipn i buttons
  /\ length (rows_from buttons i) = ((length buttons - i + 3) / 4)%nat
  /\ forall j, (j < length (rows_from buttons i))%nat ->
               nth j (rows_from buttons i) [] = firstn 4 (skipn (i + 4 * j) buttons).
Proof.
  revert i; induction n as [|n IH]; intros i Hn.
  - rewrite rows_from_end by lia. rewrite skipn_all2 by lia.
    replace (length buttons - i)%nat with 0%nat by lia.
    repeat split. simpl; intros j Hj; lia.
  - destruct (Nat.le_gt_cases (length buttons) i) as [Hi|Hi].
    + rewrite rows_from_end by lia. rewrite skipn_all2 by lia.
      replace (length buttons - i)%nat with 0%nat by lia.
      repeat split. simpl; intros j Hj; lia.
    + rewrite rows_from_step by lia.
      destruct (IH (i + 4)%nat ltac:(lia)) as [Hc [Hl Hr]].
      split; [|split].
      * cbn [concat]. rewrite Hc.
        replace (i + 4)%nat with (4 + i)%nat by lia.
        rewrite <- skipn_skipn. apply firstn_skipn.
      * cbn [length]. rewrite Hl.
        pose proof (Nat.div_mod_eq (length buttons - (i + 4) + 3) 4).
        pose proof (Nat.div_mod_eq (length buttons - i + 3) 4).
        pose proof (Nat.mod_upper_bound (length buttons - (i + 4) + 3) 4).
        pose proof (Nat.mod_upper_bound (length buttons - i + 3) 4).
        lia.
      * intros [|j] Hj.
        -- cbn [nth]. rewrite Nat.mul_0_r, Nat.add_0_r. reflexivity.
        -- cbn [nth]. cbn [length] in Hj. rewrite Hr by lia.
           do 2 f_equal. lia.
Qed.

Lemma last_as_nth {A} (l : list A) (d : A) :
  last l d = nth (length l - 1) l d.
Proof.
  induction l as [|x l IH]; [reflexivity|].
  destruct l as [|y l]; [reflexivity|].
  change (last (x :: y :: l) d) with (last (y :: l) d). rewrite IH.
  cbn [length]. replace (S (S (length l)) - 1)%nat with (S (S (length l) - 1)) by lia.
  reflexivity.
Qed.

(** The keyboard of a message that has buttons. *)
Lemma format_keyboard (message : Sendable Dict) (source : Quotable) (w : World) :
  button_data (as_array message) <> [] ->
  exists k,
    Messages.keyboard (Formatted.messages (fst (format' message source w))) = Some k
    /\ keyboard_rows k = rows_from (button_data (as_array message)) 0.
Proof.
  intros Hne. rewrite format_unfold. cbv zeta. cbn [Formatted.messages].
  rewrite route_all_buttons. cbn [start Pass.buttons app].
  destruct (button_data (as_array message)) as [|b bs] eqn:E; [congruence|].
  eexists; split; [reflexivity|].
  unfold keyboard_rows. cbn [Keyboard.content Keyboard.rows].
  rewrite map_map. cbn [Keyboard.buttons]. apply map_id.
Qed.

(** C8. When the input holds b >= 1 button elements, the keyboard of the
    transcript payload has ceil(b/4) rows; row j holds the buttons from
    position 4j on, four of them or what is left; so the rows concatenate
    to the buttons in their order, every row but the last has four buttons,
    the last one has between one and four, and five buttons give rows of
    sizes 4 and 1. *)
Theorem format_keyboard_rows (message : Sendable Dict) (source : Quotable) (w : World) :
  let bs := button_data (as_array message) in
  bs <> [] ->
  exists k,
    Messages.keyboard (Formatted.messages (fst (format' message source w))) = Some k
    /\ let rows := keyboard_rows k in
       length rows = ((length bs + 3) / 4)%nat
       /\ concat rows = bs
       /\ (forall j, (j < length rows)%nat ->
                     nth j rows [] = firstn 4 (skipn (4 * j) bs))
       /\ (forall j, (S j < length rows)%nat -> length (nth j rows []) = 4%nat)
       /\ (1 <= length (last rows []) <= 4)%nat
       /\ (length bs = 5%nat -> map (@length Dict) rows = [4; 1]%nat).
Proof.
  intros bs Hne. destruct (format_keyboard message source w Hne) as [k [Hk Hrows]].
  exists k. split; [exact Hk|]. cbv zeta. rewrite Hrows. fold bs.
  destruct (rows_from_spec bs (length bs) 0 ltac:(lia)) as [Hc [Hl Hr]].
  rewrite Nat.sub_0_r in Hl. cbn [skipn] in Hc.
  assert (Hdiv := Nat.div_mod_eq (length bs + 3) 4).
  assert (Hmod := Nat.mod_upper_bound (length bs + 3) 4 ltac:(lia)).
  assert (Hpos : (0 < length bs)%nat) by (destruct bs; [congruence | simpl; lia]).
  split; [exact Hl|]. split; [exact Hc|]. split; [exact Hr|].
  split; [|split].
  - intros j Hj. rewrite Hr by lia.
    rewrite length_firstn, length_skipn. lia.
  - rewrite last_as_nth, Hr by lia.
    rewrite length_firstn, length_skipn. lia.
  - intros H5.
    destruct bs as [|b1 [|b2 [|b3 [|b4 [|b5 [|b6 bs']]]]]]; try discriminate.
    reflexivity.
Qed.

End FormatFacts.

(* ===================================================================== *)
(** * The statements at concrete inputs *)
(* ===================================================================== *)

(** C1 (witness). A reply followed by text. *)
Lemma format_reply_msg_id_witness :
  existsb (fun item => is_reply (as_elem item)) (as_array Run.reply_then_text) = true
  /\ exists pre id post,
       as_array Run.reply_then_text = pre ++ Elem (Reply id) :: post
       /\ forallb (fun item => negb (is_reply (as_elem item))) post = true
       /\ Messages.msg_id (Formatted.messages
            (fst (Run.format Run.reply_then_text Sample.quoted Sample.world)))
          = Some id
       /\ Files.msg_id (Formatted.files
            (fst (Run.format Run.reply_then_text Sample.quoted Sample.world)))
          = if existsb (fun item => is_media (as_elem item)) post
            then message_id Sample.quoted
            else Some id.
Proof.
  split; [reflexivity|].
  exact (format_reply_msg_id nat Sample.stringify Run.reply_then_text
           Sample.quoted Sample.world eq_refl).
Defined.

(** C1 (counterexample). A reply with message id A followed by an image,
    quoting message Q: the transcript payload carries A, the file payload
    carries Q. *)
Lemma reply_then_image_msg_id :
  Messages.msg_id (Formatted.messages
    (fst (Run.format Run.reply_then_image Sample.quoted Sample.world)))
  = Some (lit "A")
  /\ Files.msg_id (Formatted.files
       (fst (Run.format Run.reply_then_image Sample.quoted Sample.world)))
     = Some (lit "Q")
  /\ Files.msg_id (Formatted.files
       (fst (Run.format Run.reply_then_image Sample.quoted Sample.world)))
     <> Some (lit "A").
Proof.
  split; [reflexivity|]. split; [reflexivity|].
  intros H; vm_compute in H; discriminate H.
Qed.

(** C4 (witness). With a clock that stands still the timestamps agree. *)
Lemma format_timestamps_witness :
  seconds (clock_reads Run.frozen 0) = seconds (clock_reads Run.frozen 1)
  /\ Messages.timestamp (Formatted.messages
       (fst (Run.format Run.reply_then_text no_source Run.frozen)))
     = Files.timestamp (Formatted.files
         (fst (Run.format Run.reply_then_text no_source Run.frozen))).
Proof.
  split; [reflexivity|].
  exact (proj2 (proj2 (proj2 (format_timestamps nat Sample.stringify
                                Run.reply_then_text no_source Run.frozen)))
               eq_refl).
Defined.

(** C4 (counterexample). The clock reads 1700000000400 ms and then
    1700000000600 ms: the transcript payload is stamped 1700000000, the
    file payload 1700000001. *)
Lemma timestamps_differ :
  Messages.timestamp (Formatted.messages
    (fst (Run.format Run.reply_then_text no_source Sample.world)))
  = 1700000000
  /\ Files.timestamp (Formatted.files
       (fst (Run.format Run.reply_then_text no_source Sample.world)))
     = 1700000001
  /\ Messages.timestamp (Formatted.messages
       (fst (Run.format Run.reply_then_text no_source Sample.world)))
     <> Files.timestamp (Formatted.files
          (fst (Run.format Run.reply_then_text no_source Sample.world))).
Proof.
  split; [reflexivity|]. split; [reflexivity|].
  intros H; vm_compute in H; discriminate H.
Qed.

(** C5 (witness). The largest and the smallest sequence number together. *)
Lemma format_msg_seq_witness :
  1 <= 999999 <= 999999
  /\ 1 <= 1 <= 999999
  /\ exists w,
       (Messages.msg_seq (Formatted.messages
          (fst (Run.format Run.reply_then_text no_source w))),
        Files.msg_seq (Formatted.files
          (fst (Run.format Run.reply_then_text no_source w))))
       = (999999, 1).
Proof.
  split; [lia|]. split; [lia|].
  exact (proj1 (proj2 (proj2 (proj2
           (format_msg_seq nat Sample.stringify Run.reply_then_text
              no_source Sample.world))))
           999999 1 ltac:(lia) ltac:(lia)).
Defined.

(** C5 (counterexample). No outcome of the random source gives the
    sequence number 1000000, on either payload; the raw draw 999999 gives
    1. *)
Lemma msg_seq_never_1000000 :
  ~ (exists w,
        Messages.msg_seq (Formatted.messages
          (fst (Run.format Run.reply_then_text no_source w))) = 1000000
        \/ Files.msg_seq (Formatted.files
             (fst (Run.format Run.reply_then_text no_source w))) = 1000000)
  /\ randomInt_of 1 1000000 999999 = 1.
Proof.
  split; [|reflexivity].
  intros [w H].
  destruct (format_msg_seq_draws nat Sample.stringify Run.reply_then_text
              no_source w) as [Hm Hf].
  cbv zeta in Hm, Hf. unfold Run.format in H. rewrite Hm, Hf in H.
  pose proof (randomInt_of_range (random_draws w (random_used w))).
  pose proof (randomInt_of_range (random_draws w (S (random_used w)))).
  lia.
Qed.

(** C8 (witness). Five buttons. *)
Lemma format_keyboard_rows_witness :
  button_data (as_array Run.five_buttons) <> []
  /\ exists k,
       Messages.keyboard (Formatted.messages
         (fst (Run.format Run.five_buttons no_source Sample.world))) = Some k
       /\ map (@length nat) (keyboard_rows k) = [4; 1]%nat.
Proof.
  split; [simpl; discriminate|].
  destruct (format_keyboard_rows nat Sample.stringify Run.five_buttons
              no_source Sample.world ltac:(simpl; discriminate))
    as [k [Hk [_ [_ [_ [_ [_ H5]]]]]]].
  exists k. split; [exact Hk | exact (H5 eq_refl)].
Defined.

(** C9 (witness). One iteration on [a<b>c], and the whole of parse. *)
Lemma parse_total_witness :
  let st := {| template := lit "a<b>c"; result := []; brief := [] |} in
  let st' := {| template := lit "c";
                result := [text_elem (lit "a"); [(lit "type", VStr (lit "b"))]];
                brief := lit "a<b:>" |} in
  scan_step Utils.toLowerCase_ascii Utils.trimQuote (Sample.payload "a<b>c" None) st
  = Normal (Some st')
  /\ (length (template st') < length (template st))%nat
  /\ exists outcome, Run.parse (Sample.payload "a<b>c" None) = Some outcome.
Proof.
  intros st st'. split; [reflexivity|]. split.
  - exact (proj2 (proj1 (parse_total Utils.toLowerCase_ascii Utils.trimQuote
                           (Sample.payload "a<b>c" None)) st st' eq_refl)).
  - exact (proj2 (parse_total Utils.toLowerCase_ascii Utils.trimQuote
                    (Sample.payload "a<b>c" None))).
Defined.

(** C10 (witness). A mention of everyone and a channel link. *)
Lemma format_at_link_flags_witness :
  as_array Run.at_and_link <> []
  /\ forallb (fun item => is_at_or_link (as_elem item)) (as_array Run.at_and_link) = true
  /\ Formatted.hasMessages (fst (Run.format Run.at_and_link no_source Sample.world)) = false
  /\ Formatted.hasFiles (fst (Run.format Run.at_and_link no_source Sample.world)) = false
  /\ Messages.content (Formatted.messages
       (fst (Run.format Run.at_and_link no_source Sample.world))) <> [].
Proof.
  split; [simpl; discriminate|]. split; [reflexivity|].
  exact (format_at_link_flags nat Sample.stringify Run.at_and_link
           no_source Sample.world ltac:(simpl; discriminate) eq_refl).
Defined.

(* ===================================================================== *)
(** * More on the regular expression *)
(* ===================================================================== *)

Lemma upto_shape (d : char) (s m : jsstring) :
  upto d s = Some m ->
  exists body,
    m = body ++ [d]
    /\ forallb (fun c => negb (char_eqb c d)) body = true.
Proof.
  revert m; induction s as [|c s IH]; intros m; simpl; [discriminate|].
  destruct (char_eqb c d) eqn:E.
  - intros [= <-]. apply char_eqb_eq in E; subst c. exists []; split; reflexivity.
  - destruct (upto d s) as [m'|]; [|discriminate].
    intros [= <-]. destruct (IH m' eq_refl) as [body [-> Hbody]].
    exists (c :: body). split; [reflexivity|]. simpl. rewrite E. exact Hbody.
Qed.

Lemma upto_complete (d : char) (body x : jsstring) :
  forallb (fun c => negb (char_eqb c d)) body = true ->
  upto d (body ++ d :: x) = Some (body ++ [d]).
Proof.
  induction body as [|c body IH]; simpl.
  - intros _. rewrite char_eqb_refl. reflexivity.
  - rewrite andb_true_iff, negb_true_iff. intros [Hc Hbody].
    rewrite Hc, (IH Hbody). reflexivity.
Qed.

Lemma upto_absent (d : char) (s : jsstring) :
  forallb (fun c => negb (char_eqb c d)) s = true -> upto d s = None.
Proof.
  induction s as [|c s IH]; simpl; [reflexivity|].
  rewrite andb_true_iff, negb_true_iff. intros [Hc Hs].
  rewrite Hc, (IH Hs). reflexivity.
Qed.

Lemma closing_quote_closer (c d : char) :
  closing_quote c = Some d -> is_closer d = true.
Proof.
  unfold closing_quote.
  repeat match goal with
         | |- context [if ?b then _ else _] => destruct b
         end; intros [= <-]; reflexivity.
Qed.

Lemma regex_at_shape (s m : jsstring) :
  regex_at s = Some m -> match_shape m.
Proof.
  destruct s as [|c rest]; simpl; [discriminate|].
  destruct (closing_quote c) as [d|] eqn:Eq.
  - destruct (upto d rest) as [m'|] eqn:E; [|discriminate].
    intros [= <-]. destruct (upto_shape _ _ _ E) as [body [-> Hbody]].
    exists c, d, body. repeat split; auto.
  - destruct (char_eqb c Chars.lt) eqn:Ec; [|discriminate].
    apply char_eqb_eq in Ec; subst c.
    destruct rest as [|x rest']; [discriminate|].
    destruct (char_eqb x Chars.gt) eqn:Ex; [discriminate|].
    destruct (upto Chars.gt rest') as [m'|] eqn:E; [|discriminate].
    intros [= <-]. destruct (upto_shape _ _ _ E) as [body [-> Hbody]].
    exists Chars.lt, Chars.gt, (x :: body). repeat split.
    + simpl. rewrite Ex. exact Hbody.
    + right. repeat split. discriminate.
Qed.

(** A string of the shape of a match is matched at the head of whatever it
    is followed by. *)
Lemma regex_at_of_shape (m x : jsstring) :
  match_shape m -> regex_at (m ++ x) = Some m.
Proof.
  intros [o [c [body [-> [Hbody [Hq|[-> [-> Hne]]]]]]]].
  - cbn [app regex_at]. rewrite Hq, <- app_assoc. cbn [app].
    rewrite (upto_complete c body x Hbody). reflexivity.
  - destruct body as [|b body]; [congruence|].
    simpl in Hbody. rewrite andb_true_iff, negb_true_iff in Hbody.
    destruct Hbody as [Hb Hbody].
    cbn [app regex_at]. change (closing_quote Chars.lt) with (@None char).
    rewrite char_eqb_refl, Hb, <- app_assoc. cbn [app].
    rewrite (upto_complete Chars.gt body x Hbody). reflexivity.
Qed.

Lemma regex_match_unfold (s : jsstring) :
  regex_match s
  = match regex_at s with
    | Some m => Some m
    | None => match s with
              | [] => None
              | _ :: s' => regex_match s'
              end
    end.
Proof. destruct s; reflexivity. Qed.

(** Where the leftmost match lies: after a prefix at none of whose
    positions the regular expression matches. *)
Lemma regex_match_leftmost (s m : jsstring) :
  regex_match s = Some m ->
  exists pre post,
    s = pre ++ m ++ post
    /\ match_shape m
    /\ forall k, (k < length pre)%nat -> regex_at (skipn k s) = None.
Proof.
  induction s as [|c s IH]; [discriminate|].
  rewrite regex_match_unfold.
  destruct (regex_at (c :: s)) as [m'|] eqn:E.
  - intros [= <-]. destruct (regex_at_split _ _ E) as [_ [post Hs]].
    exists [], post. split; [exact Hs|]. split; [exact (regex_at_shape _ _ E)|].
    simpl; intros k Hk; lia.
  - intros H. destruct (IH H) as [pre [post [-> [Hshape Hnone]]]].
    exists (c :: pre), post. split; [reflexivity|]. split; [exact Hshape|].
    intros [|k] Hk; [exact E|]. apply Hnone. simpl in Hk; lia.
Qed.

Lemma match_shape_closer (m : jsstring) :
  match_shape m -> existsb is_closer m = true.
Proof.
  intros [o [c [body [-> [_ H]]]]].
  change (o :: body ++ [c]) with ((o :: body) ++ [c]).
  rewrite existsb_app. simpl existsb at 2.
  assert (Hc : is_closer c = true).
  { destruct H as [H|[_ [-> _]]]; [exact (closing_quote_closer _ _ H) | reflexivity]. }
  rewrite Hc, orb_true_r. reflexivity.
Qed.

Lemma regex_at_app (a x m : jsstring) :
  regex_at a = Some m -> regex_at (a ++ x) = Some m.
Proof.
  intros H. destruct (regex_at_split _ _ H) as [_ [post ->]].
  rewrite <- app_assoc. apply regex_at_of_shape. exact (regex_at_shape _ _ H).
Qed.

Lemma regex_match_none_prefix (pre x : jsstring) :
  (forall k, (k < length pre)%nat -> regex_at (skipn k (pre ++ x)) = None) ->
  regex_match pre = None.
Proof.
  induction pre as [|c pre IH]; intros H; [reflexivity|].
  rewrite regex_match_unfold.
  destruct (regex_at (c :: pre)) as [m|] eqn:E.
  - apply (regex_at_app _ x) in E.
    assert (H0 := H 0%nat ltac:(simpl; lia)). cbn [skipn] in H0.
    rewrite H0 in E. discriminate.
  - apply IH. intros k Hk. apply (H (S k)). simpl; lia.
Qed.

(** Where the match lies and where [indexOf] finds it. *)
Lemma regex_match_located (s m : jsstring) :
  regex_match s = Some m ->
  exists pre post,
    s = pre ++ m ++ post
    /\ match_shape m
    /\ indexOf s m = Z.of_nat (length pre)
    /\ regex_match pre = None.
Proof.
  intros H. destruct (regex_match_leftmost _ _ H) as [pre [post [Hs [Hshape Hnone]]]].
  exists pre, post. split; [exact Hs|]. split; [exact Hshape|]. split.
  - assert (Hr := indexOf_from_occurs pre m post 0). rewrite <- Hs in Hr.
    destruct (indexOf_from_found s m 0 _ eq_refl ltac:(lia) ltac:(lia))
      as [k [Hk [_ Hstart]]].
    unfold indexOf. rewrite Hk in *.
    destruct (Nat.lt_ge_cases k (length pre)) as [Hlt|Hge]; [|lia].
    apply startsWith_split in Hstart.
    specialize (Hnone k Hlt). rewrite Hstart in Hnone.
    rewrite (regex_at_of_shape m _ Hshape) in Hnone. discriminate.
  - apply (regex_match_none_prefix pre (m ++ post)). rewrite <- Hs. exact Hnone.
Qed.

(** X1. The string [match] that [template.match(regex)] returns lies in the
    template right where [template.indexOf(match)] finds it, it has the
    shape of one alternative of the regular expression, and the text before
    it holds no match. *)
Theorem regex_match_position (s m : jsstring) :
  regex_match s = Some m ->
  exists prevText rest,
    s = prevText ++ m ++ rest
    /\ match_shape m
    /\ indexOf s m = Z.of_nat (length prevText)
    /\ regex_match prevText = None.
Proof. exact (regex_match_located s m). Qed.

(** X2. A template without any of the six closing characters (the straight
    quotes, the backtick, the two curly closing quotes and [>]) has no
    match: an unclosed tag or quote is never matched. *)
Theorem regex_match_needs_closer (s : jsstring) :
  existsb is_closer s = false -> regex_match s = None.
Proof.
  intros Hs. destruct (regex_match s) as [m|] eqn:E; [|reflexivity].
  destruct (regex_match_leftmost _ _ E) as [pre [post [Heq [Hshape _]]]].
  apply match_shape_closer in Hshape.
  rewrite Heq, !existsb_app, Hshape, orb_true_r in Hs. discriminate.
Qed.

Section MoreScanFacts.

Variable toLowerCase : jsstring -> jsstring.
Variable trimQuote : jsstring -> jsstring.

(** An iteration, given where the match lies. *)
Lemma scan_step_at (payload : Payload) (st : Scan) (pre m post : jsstring) :
  regex_match (template st) = Some m ->
  template st = pre ++ m ++ post ->
  indexOf (template st) m = Z.of_nat (length pre) ->
  scan_step toLowerCase trimQuote payload st
  = let '(result1, brief1) :=
      match pre with
      | [] => (result st, brief st)
      | _ => (result st ++ [text_elem pre], brief st ++ pre)
      end in
    if startsWith (lit "<") m then
      ('(elem, marker) <- parse_tag toLowerCase trimQuote payload m ;;
       Normal (Some {| template := post;
                       result := result1 ++ [elem];
                       brief := brief1 ++ marker |}))%completion
    else
      Normal (Some {| template := post;
                      result := result1 ++ [quoted_elem m];
                      brief := brief1 ++ m |}).
Proof.
  intros Hm Hs Hi. unfold scan_step. rewrite Hm.
  destruct (regex_match_occurs _ _ Hm) as [Hlen _].
  destruct m as [|c m]; [simpl in Hlen; lia|].
  rewrite Hi. cbv zeta.
  rewrite <- Nat2Z.inj_add, slice_suffix.
  rewrite slice_prefix by (rewrite Hs, length_app; lia).
  rewrite Hs.
  rewrite firstn_app, firstn_all, Nat.sub_diag, firstn_O, app_nil_r.
  replace (skipn (length pre + length (c :: m)) (pre ++ (c :: m) ++ post)) with post.
  - reflexivity.
  - rewrite app_assoc. symmetry.
    rewrite <- length_app. rewrite skipn_app, skipn_all, Nat.sub_diag. reflexivity.
Qed.

(** X3. A template without matches, be it empty, decodes without
    attachments to at most one text element holding the whole template,
    and the brief is the template. *)
Theorem parse_plain_text (s : jsstring) (mentions : option (list Obj)) :
  regex_match s = None ->
  parse toLowerCase trimQuote
        {| content := Some s; attachments := None; mentions := mentions |}
  = Some (Normal {| parsed_result := match s with
                                     | [] => []
                                     | _ => [text_elem s]
                                     end;
                    parsed_brief := s;
                    payload_after := {| content := Some s;
                                        attachments := None;
                                        mentions := None |} |}).
Proof.
  intros H. unfold parse, parse_with. cbn [content attachments].
  destruct s as [|c s]; [reflexivity|].
  cbn [scan template]. unfold scan_step. cbn [template]. rewrite H.
  reflexivity.
Qed.

Lemma text_elem_type (text : jsstring) : has_type "text" (text_elem text).
Proof. reflexivity. Qed.

Lemma quoted_elem_type (m : jsstring) : has_type "text" (quoted_elem m).
Proof. reflexivity. Qed.

(** An iteration on a template without [<]. *)
Lemma scan_step_untagged (payload : Payload) (st : Scan) :
  forallb (fun c => negb (char_eqb c Chars.lt)) (template st) = true ->
  Forall (has_type "text") (result st) ->
  match scan_step toLowerCase trimQuote payload st with
  | Normal None => True
  | Normal (Some st') =>
      brief st' ++ template st' = brief st ++ template st
      /\ forallb (fun c => negb (char_eqb c Chars.lt)) (template st') = true
      /\ Forall (has_type "text") (result st')
  | Throw _ => False
  end.
Proof.
  intros Hlt Htext.
  destruct (regex_match (template st)) as [m|] eqn:E.
  - destruct (regex_match_located _ _ E) as [pre [post [Hs [Hshape [Hi _]]]]].
    rewrite (scan_step_at payload st pre m post E Hs Hi).
    rewrite Hs, !forallb_app in Hlt.
    apply andb_true_iff in Hlt. destruct Hlt as [_ Hlt].
    apply andb_true_iff in Hlt. destruct Hlt as [Hm Hpost].
    destruct Hshape as [o [c [body [-> _]]]].
    cbn [forallb] in Hm. apply andb_true_iff in Hm. destruct Hm as [Ho _].
    apply negb_true_iff in Ho.
    assert (Hstart : startsWith (lit "<") (o :: body ++ [c]) = false).
    { change (startsWith (lit "<") (o :: body ++ [c]))
        with (char_eqb Chars.lt o && true).
      unfold char_eqb in *. rewrite N.eqb_sym, Ho. reflexivity. }
    rewrite Hstart, Hs.
    destruct pre as [|p pre]; cbn [template brief result].
    + split; [|split].
      * rewrite <- !app_assoc. reflexivity.
      * exact Hpost.
      * apply Forall_app; split; [exact Htext|].
        repeat constructor.
    + split; [|split].
      * rewrite <- !app_assoc. reflexivity.
      * exact Hpost.
      * repeat (apply Forall_app; split); [exact Htext | |]; repeat constructor.
  - unfold scan_step. rewrite E. exact I.
Qed.

Lemma scan_untagged (payload : Payload) (fuel : nat) (st : Scan) :
  forallb (fun c => negb (char_eqb c Chars.lt)) (template st) = true ->
  Forall (has_type "text") (result st) ->
  match scan toLowerCase trimQuote fuel payload st with
  | None => True
  | Some (Normal st') =>
      brief st' ++ template st' = brief st ++ template st
      /\ Forall (has_type "text") (result st')
  | Some (Throw _) => False
  end.
Proof.
  revert st; induction fuel as [|fuel IH]; intros st Hlt Htext; [exact I|].
  cbn [scan]. destruct (template st) as [|c t] eqn:Et; [rewrite Et; auto|].
  assert (Hstep := scan_step_untagged payload st ltac:(rewrite Et; exact Hlt) Htext).
  destruct (scan_step toLowerCase trimQuote payload st) as [[st1|]|e].
  - destruct Hstep as [Hb [Hlt1 Htext1]].
    specialize (IH st1 Hlt1 Htext1).
    destruct (scan toLowerCase trimQuote fuel payload st1) as [[st'|e]|]; auto.
    destruct IH as [Hb' Htext']. split; [|exact Htext'].
    rewrite Hb', Hb, Et. reflexivity.
  - rewrite Et. auto.
  - exact Hstep.
Qed.

(** X4. A template without [<] (text and quoted runs only) always decodes
    normally; every element is of type text and the brief is the template
    itself. *)
Theorem parse_untagged (s : jsstring) (mentions : option (list Obj)) :
  forallb (fun c => negb (char_eqb c Chars.lt)) s = true ->
  exists r,
    parse toLowerCase trimQuote
          {| content := Some s; attachments := None; mentions := mentions |}
    = Some (Normal r)
    /\ parsed_brief r = s
    /\ Forall (has_type "text") (parsed_result r).
Proof.
  intros Hlt. unfold parse, parse_with. cbn [content attachments].
  set (p := {| content := Some s; attachments := None; mentions := mentions |}).
  match goal with
  | |- context [scan _ _ _ _ ?st] => set (st0 := st)
  end.
  assert (Ht0 : template st0 = s) by (destruct s; reflexivity).
  destruct (scan_enough_fuel toLowerCase trimQuote p (S (length s)) st0
              ltac:(rewrite Ht0; lia)) as [outcome Ho].
  assert (Hinv := scan_untagged p (S (length s)) st0
                    ltac:(rewrite Ht0; exact Hlt) ltac:(constructor)).
  rewrite Ho in *. destruct outcome as [st'|e]; [|contradiction].
  destruct Hinv as [Hb Htext]. rewrite Ht0 in Hb. cbn [brief app] in Hb.
  eexists. split; [reflexivity|]. cbn [bind parsed_brief parsed_result].
  unfold flush. destruct (template st') as [|c t] eqn:Et.
  - rewrite app_nil_r in Hb. split; assumption.
  - cbn [brief result]. split; [exact Hb|].
    apply Forall_app; split; [exact Htext | repeat constructor].
Qed.

Lemma split_without (sep : char) (key : jsstring) :
  forallb (fun c => negb (char_eqb c sep)) key = true -> split sep key = [key].
Proof.
  induction key as [|c key IH]; [reflexivity|].
  cbn [forallb split]. rewrite andb_true_iff, negb_true_iff. intros [Hc Hkey].
  rewrite Hc, (IH Hkey). reflexivity.
Qed.

Lemma split_first (sep : char) (key value : jsstring) :
  forallb (fun c => negb (char_eqb c sep)) key = true ->
  split sep (key ++ sep :: value) = key :: split sep value.
Proof.
  induction key as [|c key IH].
  - intros _. cbn [app split]. rewrite char_eqb_refl. reflexivity.
  - cbn [forallb app split]. rewrite andb_true_iff, negb_true_iff. intros [Hc Hkey].
    rewrite Hc, (IH Hkey). reflexivity.
Qed.

(** X5. An attribute token is split at its first equals sign only: the key
    is what precedes it, lower-cased, and the value is all that follows,
    further equals signs included, with its quotes trimmed.  A token
    without an equals sign is a key with the empty value. *)
Theorem attr_entry_first_equals (key value : jsstring) :
  forallb (fun c => negb (char_eqb c Chars.equals)) key = true ->
  attr_entry toLowerCase trimQuote (AStr (key ++ lit "=" ++ value))
  = Normal (toLowerCase key, VStr (trimQuote value))
  /\ attr_entry toLowerCase trimQuote (AStr key)
     = Normal (toLowerCase key, VStr (trimQuote [])).
Proof.
  intros Hkey. unfold attr_entry. split.
  - change (lit "=" ++ value) with (Chars.equals :: value).
    rewrite (split_first _ _ _ Hkey).
    change (lit "=") with [Chars.equals]. rewrite join_split. reflexivity.
  - rewrite (split_without _ _ Hkey). reflexivity.
Qed.

End MoreScanFacts.

(* ===================================================================== *)
(** * More on tags *)
(* ===================================================================== *)

Lemma startsWith_forallb (P : char -> bool) (p s : jsstring) :
  startsWith p s = true -> forallb P s = true -> forallb P p = true.
Proof.
  intros Hp Hs. rewrite (startsWith_split _ _ Hp), forallb_app in Hs.
  apply andb_true_iff in Hs. exact (proj1 Hs).
Qed.

Lemma forallb_impl {A} (P Q : A -> bool) (l : list A) :
  (forall x, P x = true -> Q x = true) ->
  forallb P l = true -> forallb Q l = true.
Proof.
  intros H. rewrite !forallb_forall. intros Hl x Hx. apply H, Hl, Hx.
Qed.

Lemma span_stop (p : char -> bool) (a r : jsstring) (c : char) :
  forallb p a = true -> p c = false -> span p (a ++ c :: r) = (a, c :: r).
Proof.
  intros Ha Hc. induction a as [|x a IH]; cbn [app span].
  - rewrite Hc. reflexivity.
  - cbn [forallb] in Ha. apply andb_true_iff in Ha. destruct Ha as [Hx Ha].
    rewrite Hx, (IH Ha). reflexivity.
Qed.

Lemma slice_inner {A} (c d : A) (body : list A) :
  slice (c :: body ++ [d]) 1 (Some (-1)) = body.
Proof.
  unfold slice, clamp_index. cbn [length]. rewrite length_app. cbn [length].
  change (1 <? 0) with false. change (-1 <? 0) with true. cbv iota.
  rewrite Z.min_l, Z.max_l by lia.
  change (Z.to_nat 1) with 1%nat. cbn [skipn].
  replace (Z.to_nat (Z.of_nat (S (length body + 1)) + -1 - 1)) with (length body) by lia.
  rewrite firstn_app, firstn_all, Nat.sub_diag, firstn_O, app_nil_r. reflexivity.
Qed.

(** The shape of a shorthand type: lower-case letters, a colon, digits. *)
Lemma shorthand_chars (name digits : jsstring) :
  forallb is_lower name = true ->
  forallb is_digit digits = true ->
  forallb (fun c => is_lower c || char_eqb c Chars.colon || is_digit c)
          (name ++ lit ":" ++ digits) = true.
Proof.
  intros Hn Hd. rewrite !forallb_app.
  apply andb_true_iff; split; [|apply andb_true_iff; split].
  - revert Hn. apply forallb_impl. intros c H. rewrite H. reflexivity.
  - reflexivity.
  - revert Hd. apply forallb_impl. intros c H. rewrite H, orb_true_r. reflexivity.
Qed.

Lemma normalize_shorthand
    (mentions : option (list Obj)) (name digits : jsstring) (attrs : list jsstring) :
  name <> [] -> forallb is_lower name = true ->
  digits <> [] -> forallb is_digit digits = true ->
  normalize mentions (name ++ lit ":" ++ digits) attrs
  = Normal (lit "face", [AStr (lit "id=" ++ digits)]).
Proof.
  intros Hn Hlower Hd Hdigit. unfold normalize.
  assert (Hchars := shorthand_chars name digits Hlower Hdigit).
  destruct (startsWith (lit "faceType") (name ++ lit ":" ++ digits)) eqn:E1.
  { apply (startsWith_forallb _ _ _ E1) in Hchars. discriminate Hchars. }
  destruct (startsWith (lit "@") (name ++ lit ":" ++ digits)) eqn:E2.
  { apply (startsWith_forallb _ _ _ E2) in Hchars. discriminate Hchars. }
  assert (Htest : shorthand_test (name ++ lit ":" ++ digits) = true).
  { unfold shorthand_test. change (lit ":" ++ digits) with (Chars.colon :: digits).
    rewrite (span_stop is_lower name digits Chars.colon Hlower eq_refl).
    destruct name; [congruence|]. rewrite char_eqb_refl.
    destruct digits; [congruence | exact Hdigit]. }
  rewrite Htest.
  change (lit ":" ++ digits) with (Chars.colon :: digits).
  rewrite split_first, split_without.
  - reflexivity.
  - revert Hdigit. apply forallb_impl. intros c H.
    unfold is_digit, char_eqb, Chars.colon in *.
    apply andb_true_iff in H. destruct H as [H1 H2].
    apply N.leb_le in H1, H2. apply negb_true_iff, N.eqb_neq. lia.
  - revert Hlower. apply forallb_impl. intros c H.
    unfold is_lower, char_eqb, Chars.colon in *.
    apply andb_true_iff in H. destruct H as [H1 H2].
    apply N.leb_le in H1, H2. apply negb_true_iff, N.eqb_neq. lia.
Qed.

(** X6. The shorthand rule: a tag whose type is lower-case letters, a
    colon and digits resolves to the type face with the single attribute
    token id=digits, whatever attributes the tag carried. *)
Theorem shorthand_rule
    (mentions : option (list Obj)) (name digits : jsstring) (attrs : list jsstring) :
  name <> [] -> forallb is_lower name = true ->
  digits <> [] -> forallb is_digit digits = true ->
  normalize mentions (name ++ lit ":" ++ digits) attrs
  = Normal (lit "face", [AStr (lit "id=" ++ digits)]).
Proof. exact (normalize_shorthand mentions name digits attrs). Qed.

(** The mention rule with the list present. *)
Lemma normalize_mention (us : list Obj) (id : jsstring) (attrs : list jsstring) :
  normalize (Some us) (lit "@!" ++ id) attrs
  = Normal (lit "at",
            map AStr (entry_tokens
                        match find (fun u => match get u (lit "id") with
                                             | VStr s => str_eqb s id
                                             | _ => false
                                             end) us with
                        | Some u => u
                        | None => []
                        end)).
Proof.
  unfold normalize.
  change (startsWith (lit "faceType") (lit "@!" ++ id)) with false.
  change (startsWith (lit "@") (lit "@!" ++ id)) with true.
  change (startsWith (lit "@!") (lit "@!" ++ id)) with true.
  cbv iota.
  replace (slice (lit "@!" ++ id) 2 None) with id
    by (symmetry; apply (slice_suffix (lit "@!" ++ id) 2)).
  reflexivity.
Qed.

Lemma id_test_false (u : Obj) (id : jsstring) :
  get u (lit "id") <> VStr id ->
  match get u (lit "id") with
  | VStr s => str_eqb s id
  | _ => false
  end = false.
Proof.
  intros H. destruct (get u (lit "id")) as [| | | |s|]; try reflexivity.
  destruct (str_eqb s id) eqn:E; [|reflexivity].
  apply str_eqb_eq in E. congruence.
Qed.

(** X8. With a record of that id among the mentions, the tag [<@!id ...>]
    resolves to the type at, and its attribute tokens are replaced
    wholesale by the key=value tokens of the first such record, in the
    record's own order. *)
Theorem mention_rule_matched
    (before after : list Obj) (u : Obj) (id : jsstring) (attrs : list jsstring) :
  Forall (fun v => get v (lit "id") <> VStr id) before ->
  get u (lit "id") = VStr id ->
  normalize (Some (before ++ u :: after)) (lit "@!" ++ id) attrs
  = Normal (lit "at",
            map (fun kv => AStr (fst kv ++ lit "=" ++ ToString (snd kv))) u).
Proof.
  intros Hbefore Hu. rewrite normalize_mention.
  induction Hbefore as [|v before Hv _ IH].
  - cbn [app find]. rewrite Hu, str_eqb_refl.
    unfold entry_tokens. rewrite map_map. reflexivity.
  - cbn [app find]. rewrite (id_test_false _ _ Hv). exact IH.
Qed.

Section MoreTagFacts.

Variable toLowerCase : jsstring -> jsstring.
Variable trimQuote : jsstring -> jsstring.

(** X7. With the mentions present and no record of that id, the whole tag
    [<@!id>] becomes an element of type at without any attribute, and the
    marker [<at:>]; nothing is thrown. *)
Theorem parse_tag_unmatched_mention
    (payload : Payload) (us : list Obj) (id : jsstring) :
  mentions payload = Some us ->
  Forall (fun v => get v (lit "id") <> VStr id) us ->
  forallb (fun c => negb (char_eqb c Chars.comma)) id = true ->
  parse_tag toLowerCase trimQuote payload (lit "<@!" ++ id ++ lit ">")
  = Normal ([(lit "type", VStr (lit "at"))], lit "<at:>").
Proof.
  intros Hm Hus Hid. unfold parse_tag.
  change (lit "<@!" ++ id ++ lit ">")
    with (Chars.lt :: (lit "@!" ++ id) ++ [Chars.gt]).
  rewrite slice_inner, split_without by exact Hid.
  cbv iota. rewrite Hm, normalize_mention.
  assert (Hfind : find (fun u => match get u (lit "id") with
                                 | VStr s => str_eqb s id
                                 | _ => false
                                 end) us = None).
  { clear - Hus. induction Hus as [|v us Hv _ IH]; [reflexivity|].
    cbn [find]. rewrite (id_test_false _ _ Hv). exact IH. }
  rewrite Hfind. reflexivity.
Qed.

End MoreTagFacts.

(* ===================================================================== *)
(** * Attachments *)
(* ===================================================================== *)

Lemma get_set_same (o : Obj) (k : jsstring) (v : Value) : get (set o k v) k = v.
Proof.
  induction o as [|[k0 v0] o IH]; simpl.
  - rewrite str_eqb_refl. reflexivity.
  - destruct (str_eqb k0 k) eqn:E; simpl; rewrite E; [reflexivity | exact IH].
Qed.




Lemma attachment_elem_typed (attachment : Obj) :
  typed_attachment attachment = true ->
  exists em, attachment_elem attachment = Normal em.
Proof.
  unfold typed_attachment, attachment_elem.
  destruct (get attachment (lit "content_type")); try discriminate.
  intros _; eexists; reflexivity.
Qed.

Lemma attachment_elem_untyped (attachment : Obj) :
  typed_attachment attachment = false ->
  exists e, attachment_elem attachment = Throw e.
Proof.
  unfold typed_attachment, attachment_elem.
  destruct (get attachment (lit "content_type")); try discriminate;
    intros _; eexists; reflexivity.
Qed.

(** X11. The attachments are converted without a throw exactly when each
    of them carries a string [content_type]; one attachment without it
    makes the whole conversion throw a TypeError. *)
Theorem add_attachments_normal_iff (l : list Obj) (st : Scan) :
  (exists st', add_attachments l st = Normal st')
  <-> forallb typed_attachment l = true.
Proof.
  revert st; induction l as [|a l IH]; intros st; cbn [add_attachments forallb].
  - split; [reflexivity | intros _; eexists; reflexivity].
  - destruct (typed_attachment a) eqn:Ea.
    + destruct (attachment_elem_typed a Ea) as [[elem marker] ->].
      cbn [bind andb]. apply IH.
    + destruct (attachment_elem_untyped a Ea) as [e ->].
      cbn [bind andb]. split; [intros [st' H]; discriminate | discriminate].
Qed.

(** The attachments add one element and one marker each, in list order. *)
Lemma add_attachments_appends (l : list Obj) (st st' : Scan) :
  add_attachments l st = Normal st' ->
  exists ems,
    array_map attachment_elem l = Normal ems
    /\ result st' = result st ++ map fst ems
    /\ brief st' = brief st ++ concat (map snd ems)
    /\ template st' = template st.
Proof.
  revert st; induction l as [|a l IH]; intros st; cbn [add_attachments array_map].
  - intros [= <-]. exists []. cbn. rewrite !app_nil_r. repeat split.
  - destruct (attachment_elem a) as [[elem marker]|e]; cbn [bind]; [|discriminate].
    intros H. destruct (IH _ H) as [ems [-> [Hr [Hb Ht]]]].
    exists ((elem, marker) :: ems). cbn [bind map fst snd concat result brief template] in *.
    rewrite Hr, Hb, Ht, <- !app_assoc. repeat split.
Qed.

Section AttachmentFacts.

Variable toLowerCase : jsstring -> jsstring.
Variable trimQuote : jsstring -> jsstring.

(** The scan reads nothing of the payload but its mentions. *)
Lemma scan_payload (p p' : Payload) (fuel : nat) (st : Scan) :
  mentions p = mentions p' ->
  scan toLowerCase trimQuote fuel p st = scan toLowerCase trimQuote fuel p' st.
Proof.
  intros H. revert st; induction fuel as [|fuel IH]; intros st; [reflexivity|].
  cbn [scan].
  assert (Hstep : scan_step toLowerCase trimQuote p st
                  = scan_step toLowerCase trimQuote p' st).
  { unfold scan_step, parse_tag. rewrite H. reflexivity. }
  rewrite Hstep.
  destruct (template st); [reflexivity|].
  destruct (scan_step toLowerCase trimQuote p' st) as [[st'|]|e]; auto.
Qed.

(** X10. Decoding a payload with attachments gives what decoding it
    without them gives, followed by one element per attachment, in the
    order of the list, and by their markers in the brief. *)
Theorem parse_attachments
    (c : option jsstring) (l : list Obj) (m : option (list Obj)) (r : Parsed) :
  parse toLowerCase trimQuote {| content := c; attachments := Some l; mentions := m |}
  = Some (Normal r) ->
  exists r0 ems,
    parse toLowerCase trimQuote {| content := c; attachments := None; mentions := m |}
    = Some (Normal r0)
    /\ array_map attachment_elem l = Normal ems
    /\ parsed_result r = parsed_result r0 ++ map fst ems
    /\ parsed_brief r = parsed_brief r0 ++ concat (map snd ems)
    /\ length (parsed_result r) = (length (parsed_result r0) + length l)%nat.
Proof.
  unfold parse, parse_with. cbn [content attachments].
  match goal with
  | |- context [scan _ _ ?f ?p ?st] =>
      rewrite (scan_payload p {| content := c; attachments := None; mentions := m |}
                 f st eq_refl)
  end.
  match goal with
  | |- context [scan ?a ?b ?f ?p ?st] => destruct (scan a b f p st) as [[st1|e]|]
  end; try discriminate.
  cbn [attachments].
  destruct (add_attachments l (flush st1)) as [st2|e] eqn:E; cbn [bind]; [|discriminate].
  intros [= <-]. destruct (add_attachments_appends _ _ _ E) as [ems [Hems [Hr [Hb _]]]].
  eexists; exists ems. split; [reflexivity|]. cbn [parsed_result parsed_brief].
  split; [exact Hems|]. split; [exact Hr|]. split; [exact Hb|].
  rewrite Hr, length_app, length_map. f_equal.
  clear - Hems. revert ems Hems. induction l as [|a l IH]; intros ems; cbn [array_map].
  - intros [= <-]; reflexivity.
  - destruct (attachment_elem a); cbn [bind]; [|discriminate].
    destruct (array_map attachment_elem l) as [ems'|]; cbn [bind]; [|discriminate].
    intros [= <-]. cbn [length]. f_equal. apply IH. reflexivity.
Qed.

End AttachmentFacts.

(* ===================================================================== *)
(** * More on the routing pass *)
(* ===================================================================== *)

Section MoreFormatFacts.

Variable Dict : Type.
Variable JSON_stringify : Dict -> jsstring.

Abbreviation route_all'' := (route_all JSON_stringify).
Abbreviation format'' := (format JSON_stringify).

(** The guarded assignment of the content cases is an append. *)
Lemma add_content_app (m : Messages.t Dict) (s : jsstring) :
  Messages.content (Messages.add_content m s) = Messages.content m ++ s.
Proof.
  unfold Messages.add_content.
  destruct (Messages.content m) eqn:E; reflexivity.
Qed.

(** What one element does to the content, the brief and the flags. *)
Lemma route_effect (source : Quotable) (st : Pass.t Dict) (e : MessageElem Dict) :
  let st' := route JSON_stringify source st e in
  Messages.content (Pass.messages st') = Messages.content (Pass.messages st) ++ content_of e
  /\ Pass.brief st' = Pass.brief st ++ marker_of JSON_stringify e
  /\ Pass.hasMessages st' = Pass.hasMessages st || sets_hasMessages e
  /\ Pass.hasFiles st' = Pass.hasFiles st || is_media e
  /\ Messages.keyboard (Pass.messages st') = Messages.keyboard (Pass.messages st).
Proof.
  destruct e; cbn [route to_content to_files content_of marker_of sets_hasMessages
                   is_media Pass.messages Pass.brief Pass.hasMessages Pass.hasFiles];
    rewrite ?add_content_app, ?app_nil_r, ?orb_false_r, ?orb_true_r;
    repeat split; unfold Messages.add_content;
    destruct (Messages.content (Pass.messages st)); reflexivity.
Qed.

Lemma route_all_effect (source : Quotable) (items : list (Item Dict)) (st : Pass.t Dict) :
  let st' := route_all'' source st items in
  Messages.content (Pass.messages st')
  = Messages.content (Pass.messages st)
      ++ concat (map (fun item => content_of (as_elem item)) items)
  /\ Pass.brief st'
     = Pass.brief st
         ++ concat (map (fun item => marker_of JSON_stringify (as_elem item)) items)
  /\ Pass.hasMessages st'
     = Pass.hasMessages st || existsb (fun item => sets_hasMessages (as_elem item)) items
  /\ Pass.hasFiles st'
     = Pass.hasFiles st || existsb (fun item => is_media (as_elem item)) items
  /\ Messages.keyboard (Pass.messages st') = Messages.keyboard (Pass.messages st).
Proof.
  revert st; induction items as [|x items IH]; intros st.
  - cbn. rewrite !app_nil_r, !orb_false_r. repeat split.
  - rewrite route_all_cons. cbv zeta in *.
    destruct (IH (route JSON_stringify source st (as_elem x))) as [H1 [H2 [H3 [H4 H5]]]].
    destruct (route_effect source st (as_elem x)) as [E1 [E2 [E3 [E4 E5]]]].
    cbv zeta in *. rewrite H1, H2, H3, H4, H5, E1, E2, E3, E4, E5.
    cbn [map concat existsb]. rewrite <- !app_assoc, !orb_assoc. repeat split.
Qed.

(** X12. The transcript content is the concatenation, in input order, of
    what each element contributes (text as it is, a face as [<emoji:id>], a
    mention as [<@id>] or [<@everyone>], a link as [<#channel>], nothing
    for the other kinds), and the brief is the concatenation of the
    elements' markers. *)
Theorem format_content_and_brief
    (message : Sendable Dict) (source : Quotable) (w : World) :
  let r := fst (format'' message source w) in
  Messages.content (Formatted.messages r)
  = concat (map (fun item => content_of (as_elem item)) (as_array message))
  /\ Formatted.brief r
     = concat (map (fun item => marker_of JSON_stringify (as_elem item))
                   (as_array message)).
Proof.
  rewrite format_unfold. cbv zeta. cbn [Formatted.messages Formatted.brief].
  rewrite (proj2 (proj2 (proj2 (with_keyboard_frame _ _ _)))).
  match goal with
  | |- context [route_all'' source ?st0 (as_array message)] =>
      destruct (route_all_effect source (as_array message) st0) as [H1 [H2 _]]
  end.
  cbv zeta in *. rewrite H1, H2. split; reflexivity.
Qed.

(** X13. [hasMessages] is true exactly when the input holds a text (or
    bare string), face or markdown element, and [hasFiles] exactly when it
    holds an image, audio or video element. *)
Theorem format_flags (message : Sendable Dict) (source : Quotable) (w : World) :
  let r := fst (format'' message source w) in
  Formatted.hasMessages r
  = existsb (fun item => sets_hasMessages (as_elem item)) (as_array message)
  /\ Formatted.hasFiles r
     = existsb (fun item => is_media (as_elem item)) (as_array message).
Proof.
  rewrite format_unfold. cbv zeta. cbn [Formatted.hasMessages Formatted.hasFiles].
  match goal with
  | |- context [route_all'' source ?st0 (as_array message)] =>
      destruct (route_all_effect source (as_array message) st0) as [_ [_ [H3 [H4 _]]]]
  end.
  cbv zeta in *. rewrite H3, H4. split; reflexivity.
Qed.

(** X14. The transcript payload has a keyboard exactly when the input
    holds a button element. *)
Theorem format_keyboard_presence
    (message : Sendable Dict) (source : Quotable) (w : World) :
  Messages.keyboard (Formatted.messages (fst (format'' message source w))) = None
  <-> button_data (as_array message) = [].
Proof.
  rewrite format_unfold. cbv zeta. cbn [Formatted.messages].
  rewrite route_all_buttons. cbn [start Pass.buttons app].
  match goal with
  | |- context [route_all'' source ?st0 (as_array message)] =>
      destruct (route_all_effect source (as_array message) st0) as [_ [_ [_ [_ H5]]]]
  end.
  cbv zeta in *.
  destruct (button_data (as_array message)) as [|b bs]; cbn [with_keyboard].
  - rewrite H5. split; reflexivity.
  - split; discriminate.
Qed.

(** Elements of an unknown type leave the pass as it is. *)
Lemma route_all_known (source : Quotable) (items : list (Item Dict)) (st : Pass.t Dict) :
  route_all'' source st
    (filter (fun item => negb (is_unknown (as_elem item))) items)
  = route_all'' source st items.
Proof.
  revert st; induction items as [|x items IH]; intros st; [reflexivity|].
  cbn [filter]. destruct (is_unknown (as_elem x)) eqn:E; cbn [negb].
  - rewrite route_all_cons, IH.
    destruct (as_elem x); try discriminate. reflexivity.
  - rewrite !route_all_cons. apply IH.
Qed.

(** X15. Elements whose type is none of the ten known ones are dropped
    without a trace: removing them from the input changes nothing in what
    format returns. *)
Theorem format_ignores_unknown
    (items : list (Item Dict)) (source : Quotable) (w : World) :
  format'' (Sequence (filter (fun item => negb (is_unknown (as_elem item))) items))
           source w
  = format'' (Sequence items) source w.
Proof.
  unfold format, io_bind, randomInt, Date_now, ret. cbn [as_array].
  rewrite route_all_known. reflexivity.
Qed.

(** X16. Without a reply element both payloads keep the message id of the
    quote reference as their [msg_id] (none if there is no reference). *)
Theorem format_msg_id_without_reply
    (message : Sendable Dict) (source : Quotable) (w : World) :
  forallb (fun item => negb (is_reply (as_elem item))) (as_array message) = true ->
  let r := fst (format'' message source w) in
  Messages.msg_id (Formatted.messages r) = message_id source
  /\ Files.msg_id (Formatted.files r) = message_id source.
Proof.
  intros H. rewrite format_unfold. cbv zeta. cbn [Formatted.messages Formatted.files].
  rewrite (proj1 (with_keyboard_frame _ _ _)).
  match goal with
  | |- context [route_all'' source ?st0 (as_array message)] =>
      destruct (route_all_without_reply Dict JSON_stringify source
                  (as_array message) st0 H) as [H1 H2]
  end.
  cbv zeta in *. rewrite H1, H2.
  destruct (existsb _ (as_array message)); split; reflexivity.
Qed.

End MoreFormatFacts.

Section FilePayloadFacts.

Variable Dict : Type.
Variable JSON_stringify : Dict -> jsstring.

Lemma route_all_without_media
    (source : Quotable) (post : list (Item Dict)) (st : Pass.t Dict) :
  forallb (fun item => negb (is_media (as_elem item))) post = true ->
  media_fields (Pass.files (route_all JSON_stringify source st post))
  = media_fields (Pass.files st).
Proof.
  revert st; induction post as [|x post IH]; intros st; [reflexivity|].
  cbn [forallb]. rewrite andb_true_iff. intros [Hx Hpost].
  rewrite route_all_cons, (IH _ Hpost).
  destruct (as_elem x); try discriminate; reflexivity.
Qed.

Lemma route_all_without_markdown
    (source : Quotable) (post : list (Item Dict)) (st : Pass.t Dict) :
  forallb (fun item => negb (is_markdown (as_elem item))) post = true ->
  let st' := route_all JSON_stringify source st post in
  Messages.msg_type (Pass.messages st') = Messages.msg_type (Pass.messages st)
  /\ Messages.markdown (Pass.messages st') = Messages.markdown (Pass.messages st).
Proof.
  revert st; induction post as [|x post IH]; intros st; [split; reflexivity|].
  cbn [forallb]. rewrite andb_true_iff. intros [Hx Hpost].
  rewrite route_all_cons. cbv zeta in *.
  destruct (IH (route JSON_stringify source st (as_elem x)) Hpost) as [H1 H2].
  rewrite H1, H2.
  destruct (as_elem x); try discriminate;
    cbn [route to_content to_files Pass.messages]; unfold Messages.add_content;
    try destruct (Messages.content (Pass.messages st)); split; reflexivity.
Qed.

Lemma with_keyboard_markdown (m : Messages.t Dict) (buttons : list Dict) :
  Messages.msg_type (with_keyboard m buttons) = Messages.msg_type m
  /\ Messages.markdown (with_keyboard m buttons) = Messages.markdown m.
Proof. destruct buttons; split; reflexivity. Qed.

(** X17. Of several image, audio and video elements only the last one
    reaches the file payload: its kind code (image 1, video 2, audio 3),
    the marker file as content, its file as url, the event id of the quote
    reference and the flag [srv_send_msg]. *)
Theorem format_last_media
    (message : Sendable Dict) (source : Quotable) (w : World)
    (pre post : list (Item Dict)) (x : Item Dict) (code : Z) (file : jsstring) :
  as_array message = pre ++ x :: post ->
  media_of (as_elem x) = Some (code, file) ->
  forallb (fun item => negb (is_media (as_elem item))) post = true ->
  let f := Formatted.files (fst (format JSON_stringify message source w)) in
  Files.file_type f = Some code
  /\ Files.content f = Some (lit "file")
  /\ Files.url f = Some file
  /\ Files.event_id f = event_id source
  /\ Files.srv_send_msg f = Some true.
Proof.
  intros Hsplit Hx Hpost. rewrite format_unfold, Hsplit. cbv zeta.
  cbn [Formatted.files]. rewrite route_all_app, route_all_cons.
  match goal with
  | |- context [route_all JSON_stringify source ?st1 post] =>
      assert (H := route_all_without_media source post st1 Hpost)
  end.
  unfold media_fields in H.
  destruct (as_elem x); try discriminate; injection Hx as <- <-;
    cbn [route to_files Pass.files Files.file_type Files.content Files.url
         Files.event_id Files.srv_send_msg] in H;
    injection H as H1 H2 H3 H4 H5;
    cbn [route]; rewrite H1, H2, H3, H4, H5; repeat split.
Qed.

(** X18. Without an image, audio or video element the file payload carries
    none of [file_type], [content], [url], [event_id], [srv_send_msg]. *)
Theorem format_without_media
    (message : Sendable Dict) (source : Quotable) (w : World) :
  forallb (fun item => negb (is_media (as_elem item))) (as_array message) = true ->
  media_fields (Formatted.files (fst (format JSON_stringify message source w)))
  = (None, None, None, None, None).
Proof.
  intros H. rewrite format_unfold. cbv zeta. cbn [Formatted.files].
  rewrite (route_all_without_media source _ _ H). reflexivity.
Qed.

(** X19. The transcript payload's [msg_type] is 2 when the input holds a
    markdown element and 0 otherwise; [markdown.content] is the content of
    the last markdown element, and absent when there is none. *)
Theorem format_markdown (message : Sendable Dict) (source : Quotable) (w : World) :
  let m := Formatted.messages (fst (format JSON_stringify message source w)) in
  (forall pre content post,
      as_array message = pre ++ Elem (Markdown content) :: post ->
      forallb (fun item => negb (is_markdown (as_elem item))) post = true ->
      Messages.msg_type m = 2 /\ Messages.markdown m = Some content)
  /\ (forallb (fun item => negb (is_markdown (as_elem item))) (as_array message) = true ->
      Messages.msg_type m = 0 /\ Messages.markdown m = None).
Proof.
  rewrite format_unfold. cbv zeta. cbn [Formatted.messages].
  destruct (with_keyboard_markdown
              (Pass.messages
                 (route_all JSON_stringify source
                    (start source
                       (randomInt_of 1 1000000 (random_draws w (random_used w)))
                       (clock_reads w (clock_used w))
                       (randomInt_of 1 1000000 (random_draws w (S (random_used w))))
                       (clock_reads w (S (clock_used w))))
                    (as_array message)))
              (Pass.buttons
                 (route_all JSON_stringify source
                    (start source
                       (randomInt_of 1 1000000 (random_draws w (random_used w)))
                       (clock_reads w (clock_used w))
                       (randomInt_of 1 1000000 (random_draws w (S (random_used w))))
                       (clock_reads w (S (clock_used w))))
                    (as_array message)))) as [-> ->].
  split.
  - intros pre content post Hsplit Hpost. rewrite Hsplit, route_all_app, route_all_cons.
    match goal with
    | |- context [route_all JSON_stringify source ?st1 post] =>
        destruct (route_all_without_markdown source post st1 Hpost) as [H1 H2]
    end.
    cbv zeta in *. rewrite H1, H2. split; reflexivity.
  - intros H.
    match goal with
    | |- context [route_all JSON_stringify source ?st0 (as_array message)] =>
        destruct (route_all_without_markdown source _ st0 H) as [H1 H2]
    end.
    cbv zeta in *. rewrite H1, H2. split; reflexivity.
Qed.

End FilePayloadFacts.

(** Rounding to seconds is monotone. *)
Lemma seconds_monotone (a b : Z) : a <= b -> seconds a <= seconds b.
Proof.
  intros H. unfold seconds.
  destruct (a <? 0) eqn:Ea; destruct (b <? 0) eqn:Eb;
    try apply Z.ltb_lt in Ea; try apply Z.ltb_ge in Ea;
    try apply Z.ltb_lt in Eb; try apply Z.ltb_ge in Eb.
  - assert ((- b + 500) / 1000 <= (- a + 500) / 1000)
      by (apply Z.div_le_mono; lia). lia.
  - assert (0 <= (- a + 500) / 1000) by (apply Z.div_pos; lia).
    assert (0 <= (b + 500) / 1000) by (apply Z.div_pos; lia). lia.
  - lia.
  - apply Z.div_le_mono; lia.
Qed.

(** X21. [getType] answers 1 for image, 2 for video, 3 for audio and 0 for
    every other type name. *)
Theorem getType_codes (type : jsstring) :
  (type = lit "image" -> getType type = 1)
  /\ (type = lit "video" -> getType type = 2)
  /\ (type = lit "audio" -> getType type = 3)
  /\ (type <> lit "image" -> type <> lit "video" -> type <> lit "audio" ->
      getType type = 0).
Proof.
  repeat split; try (intros ->; reflexivity).
  intros H1 H2 H3. unfold getType, array_indexOf. cbn [array_indexOf_from].
  destruct (str_eqb (lit "image") type) eqn:E1;
    [apply str_eqb_eq in E1; congruence|].
  destruct (str_eqb (lit "video") type) eqn:E2;
    [apply str_eqb_eq in E2; congruence|].
  destruct (str_eqb (lit "audio") type) eqn:E3;
    [apply str_eqb_eq in E3; congruence|].
  reflexivity.
Qed.

Section ClockFacts.

Variable Dict : Type.
Variable JSON_stringify : Dict -> jsstring.

(** X20. If the clock does not run backwards between the two reads of a
    call, the file payload's timestamp is not earlier than the transcript
    payload's; and a timestamp is within half a second of its read. *)
Theorem format_timestamps_ordered
    (message : Sendable Dict) (source : Quotable) (w : World) :
  clock_reads w (clock_used w) <= clock_reads w (S (clock_used w)) ->
  let r := fst (format JSON_stringify message source w) in
  Messages.timestamp (Formatted.messages r) <= Files.timestamp (Formatted.files r)
  /\ (0 <= clock_reads w (clock_used w) ->
      -500 < 1000 * Messages.timestamp (Formatted.messages r)
               - clock_reads w (clock_used w) <= 500).
Proof.
  intros H. rewrite format_unfold. cbv zeta. cbn [Formatted.messages Formatted.files].
  match goal with
  | |- context [route_all JSON_stringify source ?st0 (as_array message)] =>
      destruct (route_all_frame Dict JSON_stringify source (as_array message) st0)
        as [_ [H2 [_ H4]]]
  end.
  cbv zeta in *.
  rewrite (proj1 (proj2 (proj2 (with_keyboard_frame _ _ _)))), H2, H4.
  cbn [start Pass.messages Pass.files Messages.timestamp Files.timestamp].
  split; [apply seconds_monotone, H|].
  intros Hpos. unfold seconds.
  destruct (clock_reads w (clock_used w) <? 0) eqn:E; [apply Z.ltb_lt in E; lia|].
  pose proof (Z.div_mod (clock_reads w (clock_used w) + 500) 1000 ltac:(lia)).
  pose proof (Z.mod_pos_bound (clock_reads w (clock_used w) + 500) 1000 ltac:(lia)).
  lia.
Qed.

End ClockFacts.

(* ===================================================================== *)
(** * Encoding, then decoding *)
(* ===================================================================== *)

Section RoundTrip.

Variable toLowerCase : jsstring -> jsstring.
Variable trimQuote : jsstring -> jsstring.
Variable Dict : Type.
Variable JSON_stringify : Dict -> jsstring.

(** A template that is one tag decodes to what the tag resolves to. *)
Lemma parse_single_tag
    (body : jsstring) (m : option (list Obj)) (elem : Obj) (marker : jsstring) :
  body <> [] ->
  forallb (fun c => negb (char_eqb c Chars.gt)) body = true ->
  let tag := Chars.lt :: body ++ [Chars.gt] in
  let payload := {| content := Some tag; attachments := None; mentions := m |} in
  parse_tag toLowerCase trimQuote payload tag = Normal (elem, marker) ->
  parse toLowerCase trimQuote payload
  = Some (Normal {| parsed_result := [elem];
                    parsed_brief := marker;
                    payload_after := {| content := Some tag;
                                        attachments := None;
                                        mentions := None |} |}).
Proof.
  intros Hne Hbody tag payload Htag.
  assert (Hat : regex_at (tag ++ []) = Some tag).
  { apply regex_at_of_shape. exists Chars.lt, Chars.gt, body.
    split; [reflexivity|]. split; [exact Hbody|]. right. repeat split. exact Hne. }
  unfold parse, parse_with. cbn [content attachments payload].
  change (length tag) with (S (length (body ++ [Chars.gt]))).
  rewrite length_app. cbn [length]. rewrite Nat.add_1_r.
  cbn [scan template tag].
  rewrite (scan_step_head toLowerCase trimQuote _ _ tag []);
    [ | cbn [template]; symmetry; apply app_nil_r | exact Hat ].
  change (startsWith (lit "<") tag) with true. cbv iota.
  fold tag. fold payload. rewrite Htag. reflexivity.
Qed.

(** X22. A face element with a numeric id survives encoding and decoding:
    format renders it as [<emoji:digits>] in the transcript content, and
    parse turns that content into one element whose id attribute is the
    digits again (after [trimQuote]), of type face, with the brief
    [<face:id=digits>]. *)
Theorem face_round_trip
    (digits : jsstring) (source : Quotable) (w : World) (m : option (list Obj)) :
  digits <> [] -> forallb is_digit digits = true ->
  let content :=
    Messages.content
      (Formatted.messages
         (fst (format JSON_stringify (Single (Elem (Face digits))) source w))) in
  content = lit "<emoji:" ++ digits ++ lit ">"
  /\ exists r elem,
       parse toLowerCase trimQuote
             {| content := Some content; attachments := None; mentions := m |}
       = Some (Normal r)
       /\ parsed_result r = [elem]
       /\ parsed_brief r = lit "<face:id=" ++ digits ++ lit ">"
       /\ get elem (toLowerCase (lit "id")) = VStr (trimQuote digits)
       /\ (toLowerCase (lit "id") <> lit "type" -> has_type "face" elem).
Proof.
  intros Hne Hdigit. cbv zeta.
  assert (Hc : Messages.content
                 (Formatted.messages
                    (fst (format JSON_stringify (Single (Elem (Face digits))) source w)))
               = Chars.lt :: (lit "emoji:" ++ digits) ++ [Chars.gt]).
  { reflexivity. }
  split; [rewrite Hc; reflexivity|].
  rewrite Hc.
  assert (Hno : forall d, (d = Chars.gt \/ d = Chars.comma) ->
                forallb (fun c => negb (char_eqb c d)) (lit "emoji:" ++ digits) = true).
  { intros d Hd. rewrite forallb_app. apply andb_true_iff. split.
    - destruct Hd as [-> | ->]; reflexivity.
    - revert Hdigit. apply forallb_impl. intros c H.
      unfold is_digit, char_eqb in *.
      apply andb_true_iff in H. destruct H as [H1 H2].
      apply N.leb_le in H1, H2. apply negb_true_iff, N.eqb_neq.
      destruct Hd as [-> | ->]; unfold Chars.gt, Chars.comma; lia. }
  set (elem := set [(lit "type", VStr (lit "face"))]
                   (toLowerCase (lit "id")) (VStr (trimQuote digits))).
  exists {| parsed_result := [elem];
            parsed_brief := lit "<face:id=" ++ digits ++ lit ">";
            payload_after := {| content := Some (Chars.lt :: (lit "emoji:" ++ digits)
                                                   ++ [Chars.gt]);
                                attachments := None; mentions := None |} |}, elem.
  split; [|split; [reflexivity | split; [reflexivity | split]]].
  - apply parse_single_tag; [discriminate | apply Hno; left; reflexivity|].
    unfold parse_tag. rewrite slice_inner.
    rewrite split_without by (apply Hno; right; reflexivity).
    cbv iota.
    change (lit "emoji:" ++ digits) with (lit "emoji" ++ lit ":" ++ digits).
    rewrite normalize_shorthand by (auto; discriminate).
    cbn [bind]. unfold tag_elem. cbn [array_map attr_entry].
    change (lit "id=" ++ digits) with (lit "id" ++ Chars.equals :: digits).
    rewrite split_first by reflexivity.
    change (lit "=") with [Chars.equals]. rewrite join_split.
    cbn [bind]. unfold elem. reflexivity.
  - apply get_set_same.
  - intros Hk. unfold has_type, elem. rewrite get_set_other by exact Hk. reflexivity.
Qed.

(** X23. A mention does not survive encoding and decoding: format renders
    the mention of user id as [<@id>], which parse does not resolve as a
    mention (that takes [<@!id>]); it decodes to one element whose type is
    the raw text @id, without attributes. *)
Theorem mention_not_round_trip
    (id : jsstring) (source : Quotable) (w : World) (m : option (list Obj)) :
  id <> [] ->
  forallb (fun c => negb (char_eqb c Chars.gt) && negb (char_eqb c Chars.comma)) id = true ->
  startsWith (lit "!") id = false ->
  id <> lit "everyone" ->
  let content :=
    Messages.content
      (Formatted.messages
         (fst (format JSON_stringify (Single (Elem (At (Some id)))) source w))) in
  content = lit "<@" ++ id ++ lit ">"
  /\ parse toLowerCase trimQuote
           {| content := Some content; attachments := None; mentions := m |}
     = Some (Normal {| parsed_result := [[(lit "type", VStr (lit "@" ++ id))]];
                       parsed_brief := lit "<@" ++ id ++ lit ":>";
                       payload_after := {| content := Some content;
                                           attachments := None;
                                           mentions := None |} |}).
Proof.
  intros Hne Hid Hbang Hev. cbv zeta.
  assert (Hc : Messages.content
                 (Formatted.messages
                    (fst (format JSON_stringify (Single (Elem (At (Some id)))) source w)))
               = Chars.lt :: (lit "@" ++ id) ++ [Chars.gt]).
  { destruct id as [|c id]; [congruence|]. reflexivity. }
  split; [rewrite Hc; reflexivity|].
  rewrite Hc.
  assert (Hgt : forallb (fun c => negb (char_eqb c Chars.gt)) (lit "@" ++ id) = true).
  { cbn [lit app forallb]. cbn. revert Hid. apply forallb_impl.
    intros c H. apply andb_true_iff in H. exact (proj1 H). }
  assert (Hcomma : forallb (fun c => negb (char_eqb c Chars.comma)) (lit "@" ++ id) = true).
  { cbn [lit app forallb]. cbn. revert Hid. apply forallb_impl.
    intros c H. apply andb_true_iff in H. exact (proj2 H). }
  apply parse_single_tag; [discriminate | exact Hgt |].
  unfold parse_tag. rewrite slice_inner, split_without by exact Hcomma.
  cbv iota. unfold normalize.
  change (startsWith (lit "faceType") (lit "@" ++ id)) with false.
  change (startsWith (lit "@") (lit "@" ++ id)) with true.
  change (startsWith (lit "@!") (lit "@" ++ id)) with (startsWith (lit "!") id).
  rewrite Hbang. cbv iota.
  destruct (str_eqb (lit "@" ++ id) (lit "@everyone")) eqn:E.
  { apply str_eqb_eq in E. injection E as E. exfalso. apply Hev. exact E. }
  reflexivity.
Qed.

End RoundTrip.

(* ===================================================================== *)
(** * The further statements at concrete inputs *)
(* ===================================================================== *)

(** X1 (witness). The tag in [a<b>c]. *)
Lemma regex_match_position_witness :
  regex_match (lit "a<b>c") = Some (lit "<b>")
  /\ exists prevText rest,
       lit "a<b>c" = prevText ++ lit "<b>" ++ rest
       /\ match_shape (lit "<b>")
       /\ indexOf (lit "a<b>c") (lit "<b>") = Z.of_nat (length prevText)
       /\ regex_match prevText = None.
Proof.
  split; [reflexivity|].
  exact (regex_match_position (lit "a<b>c") (lit "<b>") eq_refl).
Defined.

(** X2 (witness). An unclosed tag. *)
Lemma regex_match_needs_closer_witness :
  existsb is_closer (lit "<unclosed") = false
  /\ regex_match (lit "<unclosed") = None.
Proof.
  split; [reflexivity|].
  exact (regex_match_needs_closer (lit "<unclosed") eq_refl).
Defined.

(** X3 (witness). The template [hello]. *)
Lemma parse_plain_text_witness :
  regex_match (lit "hello") = None
  /\ Run.parse (Sample.payload "hello" None)
     = Some (Normal {| parsed_result := [text_elem (lit "hello")];
                       parsed_brief := lit "hello";
                       payload_after := Sample.payload "hello" None |}).
Proof.
  split; [reflexivity|].
  exact (parse_plain_text Utils.toLowerCase_ascii Utils.trimQuote
           (lit "hello") None eq_refl).
Defined.

(** X4 (witness). Text with a quoted run. *)
Lemma parse_untagged_witness :
  forallb (fun c => negb (char_eqb c Chars.lt)) (lit "say 'hi'") = true
  /\ exists r,
       Run.parse (Sample.payload "say 'hi'" None) = Some (Normal r)
       /\ parsed_brief r = lit "say 'hi'"
       /\ Forall (has_type "text") (parsed_result r).
Proof.
  split; [reflexivity|].
  exact (parse_untagged Utils.toLowerCase_ascii Utils.trimQuote
           (lit "say 'hi'") None eq_refl).
Defined.

(** X5 (witness). The token [A=b=c]. *)
Lemma attr_entry_first_equals_witness :
  forallb (fun c => negb (char_eqb c Chars.equals)) (lit "A") = true
  /\ attr_entry Utils.toLowerCase_ascii Utils.trimQuote (AStr (lit "A=b=c"))
     = Normal (lit "a", VStr (lit "b=c")).
Proof.
  split; [reflexivity|].
  exact (proj1 (attr_entry_first_equals Utils.toLowerCase_ascii Utils.trimQuote
                  (lit "A") (lit "b=c") eq_refl)).
Defined.

(** X6 (witness). The type [sticker:7]. *)
Lemma shorthand_rule_witness :
  lit "sticker" <> [] /\ forallb is_lower (lit "sticker") = true
  /\ lit "7" <> [] /\ forallb is_digit (lit "7") = true
  /\ normalize None (lit "sticker:7") [lit "x=1"]
     = Normal (lit "face", [AStr (lit "id=7")]).
Proof.
  split; [discriminate|]. split; [reflexivity|].
  split; [discriminate|]. split; [reflexivity|].
  exact (shorthand_rule None (lit "sticker") (lit "7") [lit "x=1"]
           ltac:(discriminate) eq_refl ltac:(discriminate) eq_refl).
Defined.

(** X7 (witness). The tag [<@!7>] with user 42 as the only mention. *)
Lemma parse_tag_unmatched_mention_witness :
  mentions (Sample.payload "<@!7>" (Some [Run.user_42])) = Some [Run.user_42]
  /\ Forall (fun v => get v (lit "id") <> VStr (lit "7")) [Run.user_42]
  /\ forallb (fun c => negb (char_eqb c Chars.comma)) (lit "7") = true
  /\ parse_tag Utils.toLowerCase_ascii Utils.trimQuote
               (Sample.payload "<@!7>" (Some [Run.user_42])) (lit "<@!7>")
     = Normal ([(lit "type", VStr (lit "at"))], lit "<at:>").
Proof.
  assert (H : Forall (fun v => get v (lit "id") <> VStr (lit "7")) [Run.user_42])
    by (repeat constructor; discriminate).
  split; [reflexivity|]. split; [exact H|]. split; [reflexivity|].
  exact (parse_tag_unmatched_mention Utils.toLowerCase_ascii Utils.trimQuote
           (Sample.payload "<@!7>" (Some [Run.user_42])) [Run.user_42] (lit "7")
           eq_refl H eq_refl).
Defined.

(** X8 (witness). The tag [<@!42>] with user 42 among the mentions. *)
Lemma mention_rule_matched_witness :
  Forall (fun v => get v (lit "id") <> VStr (lit "42")) []
  /\ get Run.user_42 (lit "id") = VStr (lit "42")
  /\ normalize (Some [Run.user_42]) (lit "@!42") [lit "x=1"]
     = Normal (lit "at", [AStr (lit "id=42"); AStr (lit "user_name=X")]).
Proof.
  split; [constructor|]. split; [reflexivity|].
  exact (mention_rule_matched [] [] Run.user_42 (lit "42") [lit "x=1"]
           (Forall_nil _) eq_refl).
Defined.


(** X10 (witness). The template [hi] with the png attachment. *)
Lemma parse_attachments_witness :
  exists r,
    Run.parse {| content := Some (lit "hi");
                 attachments := Some [Run.png];
                 mentions := None |} = Some (Normal r)
    /\ exists r0 ems,
         Run.parse {| content := Some (lit "hi");
                      attachments := None;
                      mentions := None |} = Some (Normal r0)
         /\ array_map attachment_elem [Run.png] = Normal ems
         /\ parsed_result r = parsed_result r0 ++ map fst ems
         /\ parsed_brief r = parsed_brief r0 ++ concat (map snd ems)
         /\ length (parsed_result r) = (length (parsed_result r0) + 1)%nat.
Proof.
  eexists. split; [reflexivity|].
  exact (parse_attachments Utils.toLowerCase_ascii Utils.trimQuote
           (Some (lit "hi")) [Run.png] None _ eq_refl).
Defined.

(** X11 (witness). The png attachment alone. *)
Lemma add_attachments_normal_iff_witness :
  forallb typed_attachment [Run.png] = true
  /\ exists st',
       add_attachments [Run.png] {| template := []; result := []; brief := [] |}
       = Normal st'.
Proof.
  split; [reflexivity|].
  exact (proj2 (add_attachments_normal_iff [Run.png]
                  {| template := []; result := []; brief := [] |}) eq_refl).
Defined.

(** X14 (witness). A message without buttons. *)
Lemma format_keyboard_presence_witness :
  button_data (as_array Run.at_and_link) = []
  /\ Messages.keyboard (Formatted.messages
       (fst (Run.format Run.at_and_link no_source Sample.world))) = None.
Proof.
  split; [reflexivity|].
  exact (proj2 (format_keyboard_presence nat Sample.stringify Run.at_and_link
                  no_source Sample.world) eq_refl).
Defined.

(** X16 (witness). A message without a reply, quoting Q. *)
Lemma format_msg_id_without_reply_witness :
  forallb (fun item => negb (is_reply (as_elem item))) (as_array Run.at_and_link) = true
  /\ Messages.msg_id (Formatted.messages
       (fst (Run.format Run.at_and_link Sample.quoted Sample.world))) = Some (lit "Q")
  /\ Files.msg_id (Formatted.files
       (fst (Run.format Run.at_and_link Sample.quoted Sample.world))) = Some (lit "Q").
Proof.
  split; [reflexivity|].
  exact (format_msg_id_without_reply nat Sample.stringify Run.at_and_link
           Sample.quoted Sample.world eq_refl).
Defined.

(** X17 (witness). An image, then a video, then text: the video wins. *)
Lemma format_last_media_witness :
  as_array Run.two_media
  = [Elem (Image (lit "a"))] ++ Elem (Video (lit "b")) :: [Str (lit "t")]
  /\ media_of (as_elem (@Elem nat (Video (lit "b")))) = Some (2, lit "b")
  /\ forallb (fun item => negb (is_media (as_elem item))) [@Str nat (lit "t")] = true
  /\ Files.file_type (Formatted.files
       (fst (Run.format Run.two_media Sample.quoted Sample.world))) = Some 2
  /\ Files.url (Formatted.files
       (fst (Run.format Run.two_media Sample.quoted Sample.world))) = Some (lit "b").
Proof.
  split; [reflexivity|]. split; [reflexivity|]. split; [reflexivity|].
  destruct (format_last_media nat Sample.stringify Run.two_media Sample.quoted
              Sample.world [Elem (Image (lit "a"))] [Str (lit "t")]
              (Elem (Video (lit "b"))) 2 (lit "b") eq_refl eq_refl eq_refl)
    as [H1 [_ [H3 _]]].
  split; [exact H1 | exact H3].
Defined.

(** X18 (witness). A message without media. *)
Lemma format_without_media_witness :
  forallb (fun item => negb (is_media (as_elem item))) (as_array Run.at_and_link) = true
  /\ media_fields (Formatted.files
       (fst (Run.format Run.at_and_link Sample.quoted Sample.world)))
     = (None, None, None, None, None).
Proof.
  split; [reflexivity|].
  exact (format_without_media nat Sample.stringify Run.at_and_link
           Sample.quoted Sample.world eq_refl).
Defined.

(** X19 (witness). One markdown element. *)
Lemma format_markdown_witness :
  as_array Run.one_markdown = [] ++ Elem (Markdown (lit "# m")) :: []
  /\ forallb (fun item => negb (is_markdown (@as_elem nat item))) [] = true
  /\ Messages.msg_type (Formatted.messages
       (fst (Run.format Run.one_markdown no_source Sample.world))) = 2
  /\ Messages.markdown (Formatted.messages
       (fst (Run.format Run.one_markdown no_source Sample.world))) = Some (lit "# m").
Proof.
  split; [reflexivity|]. split; [reflexivity|].
  exact (proj1 (format_markdown nat Sample.stringify Run.one_markdown
                  no_source Sample.world)
               [] (lit "# m") [] eq_refl eq_refl).
Defined.

(** X20 (witness). A clock that advances by 200 ms between the reads. *)
Lemma format_timestamps_ordered_witness :
  clock_reads Sample.world (clock_used Sample.world)
  <= clock_reads Sample.world (S (clock_used Sample.world))
  /\ Messages.timestamp (Formatted.messages
       (fst (Run.format Run.at_and_link no_source Sample.world)))
     <= Files.timestamp (Formatted.files
          (fst (Run.format Run.at_and_link no_source Sample.world))).
Proof.
  assert (H : clock_reads Sample.world (clock_used Sample.world)
              <= clock_reads Sample.world (S (clock_used Sample.world)))
    by (cbn; lia).
  split; [exact H|].
  exact (proj1 (format_timestamps_ordered nat Sample.stringify Run.at_and_link
                  no_source Sample.world H)).
Defined.

(** X21 (witness). The code of video. *)
Lemma getType_codes_witness :
  lit "video" = lit "video" /\ getType (lit "video") = 2.
Proof.
  split; [reflexivity|].
  exact (proj1 (proj2 (getType_codes (lit "video"))) eq_refl).
Defined.

(** X22 (witness). The face 7. *)
Lemma face_round_trip_witness :
  lit "7" <> [] /\ forallb is_digit (lit "7") = true
  /\ exists r elem,
       Run.parse (Sample.payload "<emoji:7>" None) = Some (Normal r)
       /\ parsed_result r = [elem]
       /\ parsed_brief r = lit "<face:id=7>"
       /\ get elem (lit "id") = VStr (lit "7").
Proof.
  split; [discriminate|]. split; [reflexivity|].
  destruct (proj2 (face_round_trip Utils.toLowerCase_ascii Utils.trimQuote
                     nat Sample.stringify (lit "7") no_source Sample.world None
                     ltac:(discriminate) eq_refl))
    as [r [elem [H1 [H2 [H3 [H4 _]]]]]].
  exists r, elem. repeat split; assumption.
Defined.

(** X23 (witness). The mention of user 42. *)
Lemma mention_not_round_trip_witness :
  lit "42" <> []
  /\ forallb (fun c => negb (char_eqb c Chars.gt) && negb (char_eqb c Chars.comma))
             (lit "42") = true
  /\ startsWith (lit "!") (lit "42") = false
  /\ lit "42" <> lit "everyone"
  /\ Run.parse (Sample.payload "<@42>" None)
     = Some (Normal {| parsed_result := [[(lit "type", VStr (lit "@42"))]];
                       parsed_brief := lit "<@42:>";
                       payload_after := Sample.payload "<@42>" None |}).
Proof.
  split; [discriminate|]. split; [reflexivity|]. split; [reflexivity|].
  split; [discriminate|].
  exact (proj2 (mention_not_round_trip Utils.toLowerCase_ascii Utils.trimQuote
                  nat Sample.stringify (lit "42") no_source Sample.world None
                  ltac:(discriminate) eq_refl eq_refl ltac:(discriminate))).
Defined.
